(** * Credential lifecycle of the secrets-engine plugin

    A shallow embedding of the Go plugin: configuration store, role store,
    upstream client cache, credential issuer and the revoke/renew
    callbacks.  Handlers are functions on an explicit world (host storage,
    the backend's cached client pointer, the heap of client objects and the
    trace of upstream calls).  A Go return [(v, nil)] is [Ret v], a return
    [(nil, err)] is [Fail msg] with the error's message, and a runtime
    panic (nil dereference, failed type assertion) is [Panic]. *)

From Stdlib Require Import ZArith String List Lia.
From stdpp Require Import base option gmap strings list.

Open Scope Z_scope.
Open Scope string_scope.

(** ** Go results *)

Inductive outcome (A : Type) : Type :=
| Ret (a : A)
| Fail (err : string)
| Panic (msg : string).
Arguments Ret {A} a.
Arguments Fail {A} err.
Arguments Panic {A} msg.

(** [fmt.Errorf("<prefix>: %w", err)] *)
Definition wrapf (prefix err : string) : string := prefix +:+ ": " +:+ err.

Definition is_Ret {A} (o : outcome A) : bool :=
  match o with Ret _ => true | _ => false end.

(** ** Machine integers and durations *)

(** Two's complement wrap-around of a 64-bit signed integer. *)
Definition wrap64 (z : Z) : Z := (z + 2 ^ 63) mod 2 ^ 64 - 2 ^ 63.

(** [time.Second], in nanoseconds. *)
Definition Second : Z := 1000000000.

(** [time.Duration(n) * time.Second] *)
Definition seconds (n : Z) : Z := wrap64 (n * Second).

(** ** Dynamically typed values ([interface{}]) *)

Inductive ival : Type :=
| VString (s : string)
| VInt (n : Z)
| VBool (b : bool).

Global Instance ival_eq_dec : EqDecision ival.
Proof. solve_decision. Defined.

(** ** JSON documents held by storage entries *)

Inductive jval : Type :=
| JString (s : string)
| JNumber (n : Z).

Global Instance jval_eq_dec : EqDecision jval.
Proof. solve_decision. Defined.

(** Decoding of one struct field: an absent key leaves the field as it
    was, a value of the wrong JSON type is a decoding error. *)
Definition json_string (o : gmap string jval) (k old : string) : outcome string :=
  match o !! k with
  | None => Ret old
  | Some (JString s) => Ret s
  | Some (JNumber _) => Fail ("json: cannot unmarshal number into Go struct field " +:+ k)
  end.

Definition json_int (o : gmap string jval) (k : string) (old : Z) : outcome Z :=
  match o !! k with
  | None => Ret old
  | Some (JNumber n) => Ret n
  | Some (JString _) => Fail ("json: cannot unmarshal string into Go struct field " +:+ k)
  end.

(** ** Host storage ([logical.Storage])

    A key-value store of JSON entries.  Each operation of the interface may
    fail; [get_fault], [put_fault] and [delete_fault] hold the error the
    collaborator answers with, if any. *)

Record Storage : Type := mkStorage {
  entries : gmap string (gmap string jval);
  get_fault : option string;
  put_fault : option string;
  delete_fault : option string
}.

Definition storage_Get (s : Storage) (key : string) : outcome (option (gmap string jval)) :=
  match get_fault s with
  | Some e => Fail e
  | None => Ret (entries s !! key)
  end.

Definition storage_Put (s : Storage) (key : string) (v : gmap string jval)
  : outcome unit * Storage :=
  match put_fault s with
  | Some e => (Fail e, s)
  | None => (Ret tt, mkStorage (<[key := v]> (entries s)) (get_fault s) (put_fault s) (delete_fault s))
  end.

Definition storage_Delete (s : Storage) (key : string) : outcome unit * Storage :=
  match delete_fault s with
  | Some e => (Fail e, s)
  | None => (Ret tt, mkStorage (delete key (entries s)) (get_fault s) (put_fault s) (delete_fault s))
  end.

(** ** Responses and leases ([logical.Response], [logical.Secret]) *)

Record Secret : Type := mkSecret {
  sec_TTL : Z;
  sec_MaxTTL : Z;
  sec_Renewable : bool;
  InternalData : gmap string ival
}.

Record Response : Type := mkResponse {
  resp_Secret : option Secret;
  resp_Data : gmap string ival
}.

(** [logical.ErrorResponse(text)]: a user-facing error, returned with a nil
    Go error. *)
Definition ErrorResponse (text : string) : Response :=
  mkResponse None {[ "error" := VString text ]}.

Inductive Operation : Type :=
| CreateOperation
| ReadOperation
| UpdateOperation
| DeleteOperation.

Global Instance Operation_eq_dec : EqDecision Operation.
Proof. solve_decision. Defined.

(** ** Role store *)

Record myRoleEntry : Type := mkRole {
  Username : string;
  UserID : Z;
  Token : string;
  TokenID : string;
  TTL : Z;
  MaxTTL : Z
}.

(** [new(myRoleEntry)] *)
Definition new_myRoleEntry : myRoleEntry := mkRole "" 0 "" "" 0 0.

Definition set_Username (r : myRoleEntry) (u : string) : myRoleEntry :=
  mkRole u (UserID r) (Token r) (TokenID r) (TTL r) (MaxTTL r).

Definition set_TTL (r : myRoleEntry) (t : Z) : myRoleEntry :=
  mkRole (Username r) (UserID r) (Token r) (TokenID r) t (MaxTTL r).

Definition set_MaxTTL (r : myRoleEntry) (t : Z) : myRoleEntry :=
  mkRole (Username r) (UserID r) (Token r) (TokenID r) (TTL r) t.

(** [logical.StorageEntryJSON] on a role, by the struct's json tags. *)
Definition encode_role (r : myRoleEntry) : gmap string jval :=
  <[ "username" := JString (Username r) ]>
  (<[ "user_id" := JNumber (UserID r) ]>
  (<[ "token" := JString (Token r) ]>
  (<[ "token_id" := JString (TokenID r) ]>
  (<[ "ttl" := JNumber (TTL r) ]>
  (<[ "max_ttl" := JNumber (MaxTTL r) ]> ∅))))).

(** [entry.DecodeJSON(&role)] into a zero [myRoleEntry]. *)
Definition decode_role (o : gmap string jval) : outcome myRoleEntry :=
  match json_string o "username" "" with
  | Ret u =>
    match json_int o "user_id" 0 with
    | Ret i =>
      match json_string o "token" "" with
      | Ret t =>
        match json_string o "token_id" "" with
        | Ret ti =>
          match json_int o "ttl" 0 with
          | Ret ttl =>
            match json_int o "max_ttl" 0 with
            | Ret mx => Ret (mkRole u i t ti ttl mx)
            | Fail e => Fail e | Panic m => Panic m
            end
          | Fail e => Fail e | Panic m => Panic m
          end
        | Fail e => Fail e | Panic m => Panic m
        end
      | Fail e => Fail e | Panic m => Panic m
      end
    | Fail e => Fail e | Panic m => Panic m
    end
  | Fail e => Fail e | Panic m => Panic m
  end.

Definition getRole (s : Storage) (name : string) : outcome (option myRoleEntry) :=
  if decide (name = "") then Fail "missing role name"
  else
    match storage_Get s ("role/" +:+ name) with
    | Fail e => Fail e
    | Panic m => Panic m
    | Ret None => Ret None
    | Ret (Some entry) =>
      match decode_role entry with
      | Fail e => Fail e
      | Panic m => Panic m
      | Ret role => Ret (Some role)
      end
    end.

(** [setRole]: encoding a [myRoleEntry] cannot fail and never yields a nil
    entry, so only the branch of [s.Put] remains. *)
Definition setRole (s : Storage) (name : string) (roleEntry : myRoleEntry)
  : outcome unit * Storage :=
  storage_Put s ("role/" +:+ name) (encode_role roleEntry).

(** The typed fields the dispatcher hands to the role path; [None] is a
    field the request did not supply ([GetOk] answers [ok = false]).
    Durations arrive as whole seconds. *)
Record RoleFieldData : Type := mkRoleFieldData {
  fd_name : option string;
  fd_username : option string;
  fd_ttl : option Z;
  fd_max_ttl : option Z
}.

(** [d.Get(k)] of a duration field without a schema default. *)
Definition Get_duration (f : option Z) : Z := default 0 f.

(** The field updates of [pathRolesWrite], from the lookup of the prior
    record up to (not including) the TTL validation. *)
Definition roleFields (createOperation : bool) (d : RoleFieldData)
    (roleEntry : myRoleEntry) : outcome myRoleEntry :=
  match
    match fd_username d with
    | Some username => Ret (set_Username roleEntry username)
    | None => if createOperation then Fail "missing username in role" else Ret roleEntry
    end
  with
  | Fail e => Fail e
  | Panic m => Panic m
  | Ret roleEntry =>
    let roleEntry :=
      match fd_ttl d with
      | Some ttlRaw => set_TTL roleEntry (seconds ttlRaw)
      | None =>
        if createOperation then set_TTL roleEntry (seconds (Get_duration (fd_ttl d)))
        else roleEntry
      end in
    let roleEntry :=
      match fd_max_ttl d with
      | Some maxTTLRaw => set_MaxTTL roleEntry (seconds maxTTLRaw)
      | None =>
        if createOperation then set_MaxTTL roleEntry (seconds (Get_duration (fd_max_ttl d)))
        else roleEntry
      end in
    Ret roleEntry
  end.

Definition pathRolesWrite (op : Operation) (d : RoleFieldData) (s : Storage)
  : outcome (option Response) * Storage :=
  match fd_name d with
  | None => (Ret (Some (ErrorResponse "missing role name")), s)
  | Some name =>
    match getRole s name with
    | Fail e => (Fail e, s)
    | Panic m => (Panic m, s)
    | Ret found =>
      let roleEntry := default new_myRoleEntry found in
      let createOperation := bool_decide (op = CreateOperation) in
      match roleFields createOperation d roleEntry with
      | Fail e => (Fail e, s)
      | Panic m => (Panic m, s)
      | Ret roleEntry =>
        if bool_decide (MaxTTL roleEntry ≠ 0) && bool_decide (TTL roleEntry > MaxTTL roleEntry)
        then (Ret (Some (ErrorResponse "ttl cannot be greater than max_ttl")), s)
        else
          match setRole s name roleEntry with
          | (Fail e, s') => (Fail e, s')
          | (Panic m, s') => (Panic m, s')
          | (Ret _, s') => (Ret None, s')
          end
      end
    end
  end.

Definition pathRolesDelete (d : RoleFieldData) (s : Storage)
  : outcome (option Response) * Storage :=
  match fd_name d with
  | None => (Ret (Some (ErrorResponse "missing role name")), s)
  | Some name =>
    match storage_Delete s ("role/" +:+ name) with
    | (Fail e, s') => (Fail (wrapf "error deleting hashiCups role" e), s')
    | (Panic m, s') => (Panic m, s')
    | (Ret _, s') => (Ret None, s')
    end
  end.

(** ** Configuration store *)

Definition configStoragePath : string := "config".

Record myConfig : Type := mkConfig {
  cfg_Username : string;
  cfg_Password : string;
  cfg_URL : string
}.

(** [new(myConfig)] *)
Definition new_myConfig : myConfig := mkConfig "" "" "".

Definition encode_config (c : myConfig) : gmap string jval :=
  <[ "username" := JString (cfg_Username c) ]>
  (<[ "password" := JString (cfg_Password c) ]>
  (<[ "url" := JString (cfg_URL c) ]> ∅)).

Definition decode_config (o : gmap string jval) : outcome myConfig :=
  match json_string o "username" "" with
  | Ret u =>
    match json_string o "password" "" with
    | Ret p =>
      match json_string o "url" "" with
      | Ret url => Ret (mkConfig u p url)
      | Fail e => Fail e | Panic m => Panic m
      end
    | Fail e => Fail e | Panic m => Panic m
    end
  | Fail e => Fail e | Panic m => Panic m
  end.

Definition getConfig (s : Storage) : outcome (option myConfig) :=
  match storage_Get s configStoragePath with
  | Fail e => Fail e
  | Panic m => Panic m
  | Ret None => Ret None
  | Ret (Some entry) =>
    match decode_config entry with
    | Fail e => Fail (wrapf "error reading root configuration" e)
    | Panic m => Panic m
    | Ret config => Ret (Some config)
    end
  end.

Definition nil_dereference : string :=
  "runtime error: invalid memory address or nil pointer dereference".

(** [pathConfigRead] reads [config.Username] and [config.URL] right after
    the error check, whatever pointer [getConfig] returned. *)
Definition pathConfigRead (s : Storage) : outcome (option Response) :=
  match getConfig s with
  | Fail e => Fail e
  | Panic m => Panic m
  | Ret None => Panic nil_dereference
  | Ret (Some config) =>
    Ret (Some (mkResponse None
      (<[ "username" := VString (cfg_Username config) ]>
      (<[ "url" := VString (cfg_URL config) ]> ∅))))
  end.

(** ** Upstream API and client objects *)

(** The state of a [hashicups.Client] behind a [*myClient]. *)
Record hashicupsClient : Type := mkClient {
  HostURL : string;
  auth_Username : string;
  auth_Password : string;
  client_Token : string
}.

Record AuthResponse : Type := mkAuthResponse {
  ar_UserID : Z;
  ar_Username : string;
  ar_Token : string
}.

(** The upstream identity API as a stub: what the library's constructor,
    sign-in and sign-out answer. *)
Record Upstream : Type := mkUpstream {
  NewClient_answer : string -> string -> string -> outcome string;
  SignIn_answer : hashicupsClient -> outcome AuthResponse;
  SignOut_answer : hashicupsClient -> option string
}.

Inductive UpstreamCall : Type :=
| CallNewClient (url username password : string)
| CallSignIn (c : hashicupsClient)
| CallSignOut (token : string).

Definition is_SignOut (c : UpstreamCall) : bool :=
  match c with CallSignOut _ => true | _ => false end.

(** ** The world a handler runs in

    [client] is the backend's [b.client] pointer (an index into [heap], or
    nil), [calls] the upstream calls made so far, most recent first.
    Handlers run one at a time, so the backend's lock is not part of the
    state. *)
Record World : Type := mkWorld {
  storage : Storage;
  client : option nat;
  heap : list hashicupsClient;
  upstream : Upstream;
  calls : list UpstreamCall;
  uuids : nat -> string;
  uuid_count : nat
}.

Definition set_storage (w : World) (s : Storage) : World :=
  mkWorld s (client w) (heap w) (upstream w) (calls w) (uuids w) (uuid_count w).

Definition set_client (w : World) (c : option nat) : World :=
  mkWorld (storage w) c (heap w) (upstream w) (calls w) (uuids w) (uuid_count w).

Definition set_heap (w : World) (h : list hashicupsClient) : World :=
  mkWorld (storage w) (client w) h (upstream w) (calls w) (uuids w) (uuid_count w).

Definition log_call (w : World) (c : UpstreamCall) : World :=
  mkWorld (storage w) (client w) (heap w) (upstream w) (c :: calls w) (uuids w) (uuid_count w).

(** Every cached pointer refers to an allocated client. *)
Definition world_ok (w : World) : bool :=
  match client w with
  | Some c => bool_decide (c < length (heap w))%nat
  | None => true
  end.

(** [newClient]: [config] is the [*myConfig] argument, [None] for nil. *)
Definition newClient (config : option myConfig) (w : World) : outcome nat * World :=
  match config with
  | None => (Fail "client configuration was nil", w)
  | Some config =>
    if decide (cfg_Username config = "") then (Fail "client username was not defined", w)
    else if decide (cfg_Password config = "") then (Fail "client password was not defined", w)
    else if decide (cfg_URL config = "") then (Fail "client URL was not defined", w)
    else
      let w := log_call w (CallNewClient (cfg_URL config) (cfg_Username config) (cfg_Password config)) in
      match NewClient_answer (upstream w) (cfg_URL config) (cfg_Username config) (cfg_Password config) with
      | Fail e => (Fail e, w)
      | Panic m => (Panic m, w)
      | Ret token =>
        let c := mkClient (cfg_URL config) (cfg_Username config) (cfg_Password config) token in
        (Ret (length (heap w)), set_heap w (heap w ++ [c]))
      end
  end.

(** [reset]: [b.client = nil]. *)
Definition reset (w : World) : World := set_client w None.

Definition invalidate (key : string) (w : World) : World :=
  if decide (key = "config") then reset w else w.

Definition getClient (w : World) : outcome nat * World :=
  match client w with
  | Some c => (Ret c, w)
  | None =>
    match getConfig (storage w) with
    | Fail e => (Fail e, w)
    | Panic m => (Panic m, w)
    | Ret config =>
      let config := default new_myConfig config in
      match newClient (Some config) w with
      | (Ret c, w') => (Ret c, set_client w' (Some c))
      | (Fail e, w') => (Fail e, set_client w' None)
      | (Panic m, w') => (Panic m, w')
      end
    end
  end.

(** ** Configuration paths *)

Record ConfigFieldData : Type := mkConfigFieldData {
  cfd_username : option string;
  cfd_url : option string;
  cfd_password : option string
}.

Definition configFields (createOperation : bool) (data : ConfigFieldData)
    (config : myConfig) : outcome myConfig :=
  match
    match cfd_username data with
    | Some username => Ret (mkConfig username (cfg_Password config) (cfg_URL config))
    | None => if createOperation then Fail "missing username in configuration" else Ret config
    end
  with
  | Fail e => Fail e
  | Panic m => Panic m
  | Ret config =>
    match
      match cfd_url data with
      | Some url => Ret (mkConfig (cfg_Username config) (cfg_Password config) url)
      | None => if createOperation then Fail "missing url in configuration" else Ret config
      end
    with
    | Fail e => Fail e
    | Panic m => Panic m
    | Ret config =>
      match cfd_password data with
      | Some password => Ret (mkConfig (cfg_Username config) password (cfg_URL config))
      | None => if createOperation then Fail "missing password in configuration" else Ret config
      end
    end
  end.

Definition pathConfigWrite (op : Operation) (data : ConfigFieldData) (w : World)
  : outcome (option Response) * World :=
  match getConfig (storage w) with
  | Fail e => (Fail e, w)
  | Panic m => (Panic m, w)
  | Ret found =>
    let createOperation := bool_decide (op = CreateOperation) in
    match found, createOperation with
    | None, false => (Fail "config not found during update operation", w)
    | _, _ =>
      match configFields createOperation data (default new_myConfig found) with
      | Fail e => (Fail e, w)
      | Panic m => (Panic m, w)
      | Ret config =>
        match storage_Put (storage w) configStoragePath (encode_config config) with
        | (Fail e, s') => (Fail e, set_storage w s')
        | (Panic m, s') => (Panic m, set_storage w s')
        | (Ret _, s') => (Ret None, reset (set_storage w s'))
        end
      end
    end
  end.

Definition pathConfigDelete (w : World) : outcome (option Response) * World :=
  match storage_Delete (storage w) configStoragePath with
  | (Ret _, s') => (Ret None, reset (set_storage w s'))
  | (Fail e, s') => (Fail e, set_storage w s')
  | (Panic m, s') => (Panic m, set_storage w s')
  end.

(** ** Tokens *)

Definition myTokenType : string := "my_token".

Record myToken : Type := mkToken {
  tok_UserID : Z;
  tok_Username : string;
  tok_TokenID : string;
  tok_Token : string
}.

(** The part of a [framework.Secret] that [Response] reads.  [myToken()]
    sets the type and leaves the default duration at its zero value, which
    the host reads as "use the host default". *)
Record FrameworkSecret : Type := mkFrameworkSecret {
  fs_Type : string;
  fs_DefaultDuration : Z
}.

Definition myToken_secret : FrameworkSecret := mkFrameworkSecret myTokenType 0.

(** [framework.Secret.Response(data, internal)]: a renewable lease with the
    secret's default duration; the framework adds the secret's type to the
    internal data it is given. *)
Definition Secret_Response (fs : FrameworkSecret) (data internal : gmap string ival)
  : Response :=
  mkResponse
    (Some (mkSecret (fs_DefaultDuration fs) 0 true
             (<[ "secret_type" := VString (fs_Type fs) ]> internal)))
    data.

(** [uuid.New().String()] *)
Definition uuid_New (w : World) : string * World :=
  (uuids w (uuid_count w),
   mkWorld (storage w) (client w) (heap w) (upstream w) (calls w) (uuids w) (S (uuid_count w))).

(** [deleteToken]: writes the token into the client object [c] points to
    and signs out; the error of the sign-out is dropped on both branches. *)
Definition deleteToken (w : World) (c : nat) (token : string) : outcome unit * World :=
  match heap w !! c with
  | None => (Panic nil_dereference, w)
  | Some cl =>
    let cl := mkClient (HostURL cl) (auth_Username cl) (auth_Password cl) token in
    let w := set_heap w (<[ c := cl ]> (heap w)) in
    let w := log_call w (CallSignOut (client_Token cl)) in
    match SignOut_answer (upstream w) cl with
    | Some err => (Ret tt, w)
    | None => (Ret tt, w)
    end
  end.

Definition tokenRevoke (w : World) (secret : Secret) : outcome (option Response) * World :=
  match getClient w with
  | (Fail e, w) => (Fail (wrapf "error getting client" e), w)
  | (Panic m, w) => (Panic m, w)
  | (Ret client, w) =>
    match
      match InternalData secret !! "token" with
      | Some (VString token) => Ret token
      | Some _ => Fail "invalid value for token in secret internal data"
      | None => Ret ""
      end
    with
    | Fail e => (Fail e, w)
    | Panic m => (Panic m, w)
    | Ret token =>
      match deleteToken w client token with
      | (Fail e, w) => (Fail (wrapf "error revoking user token" e), w)
      | (Panic m, w) => (Panic m, w)
      | (Ret _, w) => (Ret None, w)
      end
    end
  end.

(** The package-level [createToken]. *)
Definition createToken (w : World) (c : nat) (username : string) : outcome myToken * World :=
  match heap w !! c with
  | None => (Panic nil_dereference, w)
  | Some cl =>
    let w := log_call w (CallSignIn cl) in
    match SignIn_answer (upstream w) cl with
    | Fail e => (Fail (wrapf "error creating HashiCups token" e), w)
    | Panic m => (Panic m, w)
    | Ret response =>
      let (tokenID, w) := uuid_New w in
      (Ret (mkToken (ar_UserID response) username tokenID (ar_Token response)), w)
    end
  end.

(** The method [(b *myBackend).createToken]; the package-level function
    never answers a nil token with a nil error, so the method's nil check
    has no branch here. *)
Definition myBackend_createToken (w : World) (roleEntry : myRoleEntry)
  : outcome myToken * World :=
  match getClient w with
  | (Fail e, w) => (Fail e, w)
  | (Panic m, w) => (Panic m, w)
  | (Ret client, w) =>
    match createToken w client (Username roleEntry) with
    | (Fail e, w) => (Fail (wrapf "error creating HashiCups token" e), w)
    | (Panic m, w) => (Panic m, w)
    | (Ret token, w) => (Ret token, w)
    end
  end.

Definition set_sec_TTL (s : Secret) (t : Z) : Secret :=
  mkSecret t (sec_MaxTTL s) (sec_Renewable s) (InternalData s).

Definition set_sec_MaxTTL (s : Secret) (t : Z) : Secret :=
  mkSecret (sec_TTL s) t (sec_Renewable s) (InternalData s).

(** The two guarded assignments shared by issuance and renewal. *)
Definition apply_role_ttls (role : myRoleEntry) (s : Secret) : Secret :=
  let s := if bool_decide (TTL role > 0) then set_sec_TTL s (TTL role) else s in
  if bool_decide (MaxTTL role > 0) then set_sec_MaxTTL s (MaxTTL role) else s.

Definition createUserCreds (w : World) (role : myRoleEntry)
  : outcome (option Response) * World :=
  match myBackend_createToken w role with
  | (Fail e, w) => (Fail e, w)
  | (Panic m, w) => (Panic m, w)
  | (Ret token, w) =>
    let resp :=
      Secret_Response myToken_secret
        (<[ "token" := VString (tok_Token token) ]>
        (<[ "token_id" := VString (tok_TokenID token) ]>
        (<[ "user_id" := VInt (tok_UserID token) ]>
        (<[ "username" := VString (tok_Username token) ]> ∅))))
        (<[ "token" := VString (tok_Token token) ]>
        (<[ "role" := VString (Username role) ]> ∅)) in
    match resp_Secret resp with
    | None => (Panic nil_dereference, w)
    | Some secret =>
      (Ret (Some (mkResponse (Some (apply_role_ttls role secret)) (resp_Data resp))), w)
    end
  end.

Definition pathCredentialsRead (w : World) (roleName : string)
  : outcome (option Response) * World :=
  match getRole (storage w) roleName with
  | Fail e => (Fail (wrapf "error retrieving role" e), w)
  | Panic m => (Panic m, w)
  | Ret None => (Fail "error retrieving role: role is nil", w)
  | Ret (Some roleEntry) => createUserCreds w roleEntry
  end.

Definition type_assertion_panic : string :=
  "interface conversion: interface {} is not string".

(** [tokenRenew].  The response's [Secret] is the request's own lease
    object, so the third component is that object as the call leaves it. *)
Definition tokenRenew (w : World) (secret : Secret)
  : outcome (option Response) * World * Secret :=
  match InternalData secret !! "role" with
  | None => (Fail "secret is missing role internal data", w, secret)
  | Some roleRaw =>
    match roleRaw with
    | VString role =>
      match getRole (storage w) role with
      | Fail e => (Fail (wrapf "error retrieving role" e), w, secret)
      | Panic m => (Panic m, w, secret)
      | Ret None => (Fail "error retrieving role: role is nil", w, secret)
      | Ret (Some roleEntry) =>
        let secret := apply_role_ttls roleEntry secret in
        (Ret (Some (mkResponse (Some secret) ∅)), w, secret)
      end
    | _ => (Panic type_assertion_panic, w, secret)
    end
  end.

(** ** The specification's merge of a role record *)

(** The record the specification calls the merge of the prior state with
    the supplied fields: a supplied field replaces the prior value, an
    unsupplied one keeps it. *)
Definition merged_role (prior : myRoleEntry) (d : RoleFieldData) : myRoleEntry :=
  mkRole
    (default (Username prior) (fd_username d))
    (UserID prior) (Token prior) (TokenID prior)
    (default (TTL prior) (seconds <$> fd_ttl d))
    (default (MaxTTL prior) (seconds <$> fd_max_ttl d)).

(** ** Fixtures: stub upstreams, stores and leases *)

Definition upstream_ok : Upstream :=
  mkUpstream
    (fun _ _ _ => Ret "jwt-of-the-plugin")
    (fun cl => Ret (mkAuthResponse 7 (auth_Username cl) "jwt-of-alice"))
    (fun _ => None).

Definition upstream_signout_fails : Upstream :=
  mkUpstream
    (fun _ _ _ => Ret "jwt-of-the-plugin")
    (fun cl => Ret (mkAuthResponse 7 (auth_Username cl) "jwt-of-alice"))
    (fun _ => Some "Invalid token").

Definition empty_storage : Storage := mkStorage ∅ None None None.

Definition uuid_source (n : nat) : string :=
  match n with
  | O => "6ba7b810-9dad-41d1-80b4-00c04fd430c8"
  | S _ => "6ba7b811-9dad-41d1-80b4-00c04fd430c8"
  end.

Definition fresh_world (up : Upstream) : World :=
  mkWorld empty_storage None [] up [] uuid_source 0.

Definition alice_config : ConfigFieldData :=
  mkConfigFieldData (Some "alice") (Some "https://api.example") (Some "pw").

(** The world after [config] has been written on a fresh mount. *)
Definition configured_world (up : Upstream) : World :=
  snd (pathConfigWrite CreateOperation alice_config (fresh_world up)).

Definition r1_fields : RoleFieldData :=
  mkRoleFieldData (Some "r1") (Some "alice") (Some 60) (Some 120).

(** The world after role [r1] has been written on top of that. *)
Definition world_with_r1 (up : Upstream) : World :=
  let w := configured_world up in
  set_storage w (snd (pathRolesWrite CreateOperation r1_fields (storage w))).

(** That world once role [r1] has been deleted again. *)
Definition world_without_r1 (up : Upstream) : World :=
  let w := world_with_r1 up in
  set_storage w (snd (pathRolesDelete r1_fields (storage w))).

Definition lease_of (internal : gmap string ival) : Secret :=
  mkSecret (seconds 60) (seconds 120) true internal.

Definition lease_without_token : Secret := lease_of ∅.

(** ** Existence check of the configuration path *)

(** [pathConfigExistenceCheck]: [path] is the request's [req.Path]. *)
Definition pathConfigExistenceCheck (s : Storage) (path : string) : outcome bool :=
  match storage_Get s path with
  | Fail e => Fail (wrapf "existence check failed" e)
  | Panic m => Panic m
  | Ret out => Ret (match out with Some _ => true | None => false end)
  end.

(** ** Records used to state what the stores hold *)

(** A configuration with the supplied fields written over it. *)
Definition merged_config (prior : myConfig) (data : ConfigFieldData) : myConfig :=
  mkConfig
    (default (cfg_Username prior) (cfd_username data))
    (default (cfg_Password prior) (cfd_password data))
    (default (cfg_URL prior) (cfd_url data)).

(** The bound [pathRolesWrite] validates before it stores a role. *)
Definition role_ttl_ok (r : myRoleEntry) : Prop := MaxTTL r = 0 \/ TTL r <= MaxTTL r.

(** Every role that can be read from storage respects that bound. *)
Definition role_store_ok (s : Storage) : Prop :=
  forall name r, getRole s name = Ret (Some r) -> role_ttl_ok r.

(** The storage [storage_Put] leaves behind when it does not fail. *)
Definition put_entry (s : Storage) (key : string) (v : gmap string jval) : Storage :=
  mkStorage (<[key := v]> (entries s)) (get_fault s) (put_fault s) (delete_fault s).

(** The storage [storage_Delete] leaves behind when it does not fail. *)
Definition delete_entry (s : Storage) (key : string) : Storage :=
  mkStorage (delete key (entries s)) (get_fault s) (put_fault s) (delete_fault s).

(** ** Further fixtures *)

(** A source of token ids that never repeats. *)
Fixpoint uuid_unary (n : nat) : string :=
  match n with
  | O => "id"
  | S k => "1" +:+ uuid_unary k
  end.

Definition world_with_ids (w : World) : World :=
  mkWorld (storage w) (client w) (heap w) (upstream w) (calls w) uuid_unary 0.

Definition upstream_down : Upstream :=
  mkUpstream
    (fun _ _ _ => Fail "connection refused")
    (fun _ => Fail "connection refused")
    (fun _ => Some "connection refused").

Definition upstream_signin_fails : Upstream :=
  mkUpstream
    (fun _ _ _ => Ret "jwt-of-the-plugin")
    (fun _ => Fail "Invalid password")
    (fun _ => None).

Definition faulty_put_storage (s : Storage) : Storage :=
  mkStorage (entries s) (get_fault s) (Some "storage is sealed") (delete_fault s).

Definition faulty_delete_storage (s : Storage) : Storage :=
  mkStorage (entries s) (get_fault s) (put_fault s) (Some "storage is sealed").

(** * Properties *)

(** ** Storage entries round-trip through their JSON form *)

Lemma decode_encode_role (r : myRoleEntry) : decode_role (encode_role r) = Ret r.
Proof.
  destruct r as [u i t ti ttl mx].
  unfold decode_role, encode_role, json_string, json_int; simpl.
  repeat (rewrite ?lookup_insert_eq; rewrite ?lookup_insert_ne by done).
  reflexivity.
Qed.

Lemma decode_encode_config (c : myConfig) : decode_config (encode_config c) = Ret c.
Proof.
  destruct c as [u p url].
  unfold decode_config, encode_config, json_string; simpl.
  repeat (rewrite ?lookup_insert_eq; rewrite ?lookup_insert_ne by done).
  reflexivity.
Qed.

(** ** Role store: reading back what was put *)

Lemma getRole_get_fault (s : Storage) (name : string) (found : option myRoleEntry) :
  getRole s name = Ret found -> name <> "" /\ get_fault s = None.
Proof.
  unfold getRole, storage_Get. intros H.
  destruct (decide (name = "")) as [|Hne]; [discriminate|].
  destruct (get_fault s); [discriminate|]. auto.
Qed.

Lemma getRole_setRole (s s' : Storage) (name : string) (r : myRoleEntry) :
  name <> "" -> get_fault s = None ->
  setRole s name r = (Ret tt, s') ->
  getRole s' name = Ret (Some r).
Proof.
  intros Hne Hget. unfold setRole, storage_Put.
  destruct (put_fault s); [discriminate|].
  intros [= <-].
  unfold getRole, storage_Get; simpl.
  destruct (decide (name = "")); [contradiction|].
  rewrite Hget, lookup_insert_eq, decode_encode_role. reflexivity.
Qed.

Lemma roleFields_update (d : RoleFieldData) (prior : myRoleEntry) :
  roleFields false d prior = Ret (merged_role prior d).
Proof.
  destruct d as [n u t m], prior as [pu pi pt pti pttl pmx].
  unfold roleFields, merged_role; simpl.
  destruct u, t, m; reflexivity.
Qed.

(** ** Role upsert *)

(** C5: an upsert whose resulting record has [max_ttl > 0] and
    [default_ttl > max_ttl] answers the user-facing validation error (an
    error response with a nil Go error, not a fault) and leaves storage,
    hence any record stored before under that name, exactly as it was. *)
Theorem pathRolesWrite_rejects_ttl_above_max
    (op : Operation) (d : RoleFieldData) (s : Storage) (name : string)
    (prior : option myRoleEntry) (roleEntry : myRoleEntry) :
  fd_name d = Some name ->
  getRole s name = Ret prior ->
  roleFields (bool_decide (op = CreateOperation)) d (default new_myRoleEntry prior)
    = Ret roleEntry ->
  MaxTTL roleEntry > 0 ->
  TTL roleEntry > MaxTTL roleEntry ->
  pathRolesWrite op d s
    = (Ret (Some (ErrorResponse "ttl cannot be greater than max_ttl")), s)
  /\ getRole (snd (pathRolesWrite op d s)) name = Ret prior.
Proof.
  intros Hname Hget Hfields Hmax Hgt.
  assert (Hw : pathRolesWrite op d s
    = (Ret (Some (ErrorResponse "ttl cannot be greater than max_ttl")), s)).
  { unfold pathRolesWrite. rewrite Hname, Hget, Hfields.
    rewrite (bool_decide_eq_true_2 (MaxTTL roleEntry ≠ 0)) by lia.
    rewrite (bool_decide_eq_true_2 (TTL roleEntry > MaxTTL roleEntry)) by lia.
    reflexivity. }
  split; [exact Hw|]. rewrite Hw. exact Hget.
Qed.

(** An update of the stored role r1 (ttl 60s, max_ttl 120s) that supplies
    only ttl = 200. *)
Lemma pathRolesWrite_rejects_ttl_above_max_witness :
  let s := storage (world_with_r1 upstream_ok) in
  let d := mkRoleFieldData (Some "r1") None (Some 200) None in
  pathRolesWrite UpdateOperation d s
    = (Ret (Some (ErrorResponse "ttl cannot be greater than max_ttl")), s)
  /\ getRole (snd (pathRolesWrite UpdateOperation d s)) "r1"
     = Ret (Some (mkRole "alice" 0 "" "" (seconds 60) (seconds 120))).
Proof.
  intros s d.
  apply (pathRolesWrite_rejects_ttl_above_max UpdateOperation d s "r1"
           (Some (mkRole "alice" 0 "" "" (seconds 60) (seconds 120)))
           (mkRole "alice" 0 "" "" (seconds 200) (seconds 120))).
  - reflexivity.
  - vm_compute. reflexivity.
  - vm_compute. reflexivity.
  - vm_compute. reflexivity.
  - vm_compute. reflexivity.
Defined.

Lemma roleFields_create_fresh (d : RoleFieldData) :
  roleFields true d new_myRoleEntry
  = match fd_username d with
    | Some _ => Ret (merged_role new_myRoleEntry d)
    | None => Fail "missing username in role"
    end.
Proof. destruct d as [n [u|] [t|] [m|]]; reflexivity. Qed.

(** A write that returns (nil, nil) has stored the record it computed. *)
Lemma pathRolesWrite_stored (op : Operation) (d : RoleFieldData) (s s' : Storage)
    (name : string) (prior : option myRoleEntry) (roleEntry : myRoleEntry) :
  fd_name d = Some name ->
  getRole s name = Ret prior ->
  roleFields (bool_decide (op = CreateOperation)) d (default new_myRoleEntry prior)
    = Ret roleEntry ->
  pathRolesWrite op d s = (Ret None, s') ->
  getRole s' name = Ret (Some roleEntry).
Proof.
  intros Hname Hget Hfields. unfold pathRolesWrite. rewrite Hname, Hget, Hfields.
  destruct (getRole_get_fault _ _ _ Hget) as [Hne Hgf].
  destruct (_ && _); [discriminate|].
  destruct (setRole s name roleEntry) as [[[]|e|m] s1] eqn:Hset; try discriminate.
  intros [= <-]. eapply getRole_setRole; eauto.
Qed.

(** X28: by the operation of the request: a write whose operation is
    create and that carries no username is refused with "missing username
    in role"; after a write whose operation is update and that is stored,
    reading the role back gives the prior record (a zero record when there
    was none) with exactly the supplied fields replaced; the same holds
    after a stored create of a role that did not exist. *)
Theorem pathRolesWrite_then_getRole_merged
    (d : RoleFieldData) (s : Storage) (name : string) (prior : option myRoleEntry) :
  fd_name d = Some name ->
  getRole s name = Ret prior ->
  (fd_username d = None ->
     pathRolesWrite CreateOperation d s = (Fail "missing username in role", s))
  /\ (forall s', pathRolesWrite UpdateOperation d s = (Ret None, s') ->
        getRole s' name = Ret (Some (merged_role (default new_myRoleEntry prior) d)))
  /\ (forall s', prior = None ->
        pathRolesWrite CreateOperation d s = (Ret None, s') ->
        getRole s' name = Ret (Some (merged_role new_myRoleEntry d))).
Proof.
  intros Hname Hget. split; [|split].
  - intros Hu. unfold pathRolesWrite. rewrite Hname, Hget.
    unfold roleFields. rewrite Hu. reflexivity.
  - intros s'. apply (pathRolesWrite_stored UpdateOperation d s s' name prior); auto.
    apply roleFields_update.
  - intros s' -> Hw.
    pose proof (roleFields_create_fresh d) as Hf.
    destruct (fd_username d) as [u|] eqn:Hu.
    + apply (pathRolesWrite_stored CreateOperation d s s' name None); auto.
    + revert Hw. unfold pathRolesWrite. rewrite Hname, Hget. simpl.
      change (bool_decide (CreateOperation = CreateOperation)) with true.
      rewrite Hf. discriminate.
Qed.

(** Against the stored role r1 (username alice, ttl 60s, max_ttl 120s): a
    create without username is refused, and an update supplying only
    ttl = 30 reads back with the username and max_ttl it had. *)
Lemma pathRolesWrite_then_getRole_merged_witness :
  let s := storage (world_with_r1 upstream_ok) in
  let d := mkRoleFieldData (Some "r1") None (Some 30) None in
  pathRolesWrite CreateOperation d s = (Fail "missing username in role", s)
  /\ getRole (snd (pathRolesWrite UpdateOperation d s)) "r1"
     = Ret (Some (mkRole "alice" 0 "" "" (seconds 30) (seconds 120))).
Proof.
  intros s d.
  assert (Hget : getRole s "r1"
            = Ret (Some (mkRole "alice" 0 "" "" (seconds 60) (seconds 120))))
    by (vm_compute; reflexivity).
  destruct (pathRolesWrite_then_getRole_merged d s "r1" _ eq_refl Hget) as [Hc [Hu _]].
  split.
  - apply Hc. reflexivity.
  - apply (Hu (snd (pathRolesWrite UpdateOperation d s))).
    vm_compute. reflexivity.
Defined.

(** C9, at the failing input: the role path runs the username check only
    when the request's operation is create.  A write for the name ghost,
    which is not stored, that carries a ttl and no username: sent as an
    update it returns (nil, nil) and a role with the empty username is
    stored; the very same fields sent as a create are refused. *)
Theorem pathRolesWrite_update_creates_without_username :
  let s := storage (world_with_r1 upstream_ok) in
  let d := mkRoleFieldData (Some "ghost") None (Some 60) None in
  getRole s "ghost" = Ret None
  /\ fd_username d = None
  /\ fst (pathRolesWrite UpdateOperation d s) = Ret None
  /\ getRole (snd (pathRolesWrite UpdateOperation d s)) "ghost"
     = Ret (Some (mkRole "" 0 "" "" (seconds 60) 0))
  /\ pathRolesWrite CreateOperation d s = (Fail "missing username in role", s).
Proof.
  intros s d.
  split; [vm_compute; reflexivity|]. split; [reflexivity|].
  split; [vm_compute; reflexivity|]. split; vm_compute; reflexivity.
Qed.

(** ** Issuance *)

(** C7: issuing against a role that the role store does not hold fails
    with the role-not-found error and leaves the world as it was: no client
    is looked up or built and no upstream call is made. *)
Theorem pathCredentialsRead_missing_role (w : World) (roleName : string) :
  getRole (storage w) roleName = Ret None ->
  pathCredentialsRead w roleName = (Fail "error retrieving role: role is nil", w)
  /\ calls (snd (pathCredentialsRead w roleName)) = calls w
  /\ client (snd (pathCredentialsRead w roleName)) = client w.
Proof.
  intros Hget. unfold pathCredentialsRead. rewrite Hget. auto.
Qed.

Lemma pathCredentialsRead_missing_role_witness :
  let w := world_with_r1 upstream_ok in
  pathCredentialsRead w "missing-role" = (Fail "error retrieving role: role is nil", w)
  /\ calls (snd (pathCredentialsRead w "missing-role")) = calls w
  /\ client (snd (pathCredentialsRead w "missing-role")) = client w.
Proof.
  intros w. apply (pathCredentialsRead_missing_role w "missing-role").
  vm_compute. reflexivity.
Defined.

(** ** Renewal *)

Lemma apply_role_ttls_TTL (role : myRoleEntry) (s : Secret) :
  sec_TTL (apply_role_ttls role s) = if bool_decide (TTL role > 0) then TTL role else sec_TTL s.
Proof.
  unfold apply_role_ttls. repeat case_bool_decide; reflexivity.
Qed.

Lemma apply_role_ttls_MaxTTL (role : myRoleEntry) (s : Secret) :
  sec_MaxTTL (apply_role_ttls role s)
    = if bool_decide (MaxTTL role > 0) then MaxTTL role else sec_MaxTTL s.
Proof.
  unfold apply_role_ttls. repeat case_bool_decide; reflexivity.
Qed.

Lemma apply_role_ttls_InternalData (role : myRoleEntry) (s : Secret) :
  InternalData (apply_role_ttls role s) = InternalData s.
Proof.
  unfold apply_role_ttls. repeat case_bool_decide; reflexivity.
Qed.

Lemma tokenRenew_world (w : World) (secret : Secret) :
  snd (fst (tokenRenew w secret)) = w.
Proof.
  unfold tokenRenew.
  destruct (InternalData secret !! "role") as [[role| |]|]; try reflexivity.
  destruct (getRole (storage w) role) as [[r|]|e|m]; reflexivity.
Qed.

(** C6: for a lease bound to [role]: when the role store no longer holds
    that role, renewal fails with the role-not-found error and the lease
    object keeps its TTL and MaxTTL; when it holds it, the lease object
    (which the response carries) gets the role's TTL and MaxTTL, each only
    if the role's value is positive; in either case the world, and with it
    the list of upstream calls, is unchanged. *)
Theorem tokenRenew_follows_role (w : World) (secret : Secret) (role : string) :
  InternalData secret !! "role" = Some (VString role) ->
  (getRole (storage w) role = Ret None ->
     tokenRenew w secret = (Fail "error retrieving role: role is nil", w, secret))
  /\ (forall roleEntry, getRole (storage w) role = Ret (Some roleEntry) ->
        exists secret',
          tokenRenew w secret = (Ret (Some (mkResponse (Some secret') ∅)), w, secret')
          /\ sec_TTL secret'
             = (if bool_decide (TTL roleEntry > 0) then TTL roleEntry else sec_TTL secret)
          /\ sec_MaxTTL secret'
             = (if bool_decide (MaxTTL roleEntry > 0) then MaxTTL roleEntry
                else sec_MaxTTL secret)
          /\ InternalData secret' = InternalData secret)
  /\ calls (snd (fst (tokenRenew w secret))) = calls w.
Proof.
  intros Hrole. split; [|split].
  - intros Hget. unfold tokenRenew. rewrite Hrole, Hget. reflexivity.
  - intros roleEntry Hget. exists (apply_role_ttls roleEntry secret).
    unfold tokenRenew. rewrite Hrole, Hget.
    rewrite apply_role_ttls_TTL, apply_role_ttls_MaxTTL, apply_role_ttls_InternalData.
    auto.
  - rewrite tokenRenew_world. reflexivity.
Qed.

(** A lease bound to r1 with TTL 10s and MaxTTL 20s: once r1 is deleted the
    renewal fails and the lease is as before; while r1 (60s, 120s) is
    stored the lease takes the role's values. *)
Lemma tokenRenew_follows_role_witness :
  let lease := mkSecret (seconds 10) (seconds 20) true {[ "role" := VString "r1" ]} in
  let gone := world_without_r1 upstream_ok in
  let kept := world_with_r1 upstream_ok in
  tokenRenew gone lease = (Fail "error retrieving role: role is nil", gone, lease)
  /\ (exists secret',
        tokenRenew kept lease = (Ret (Some (mkResponse (Some secret') ∅)), kept, secret')
        /\ sec_TTL secret' = seconds 60 /\ sec_MaxTTL secret' = seconds 120)
  /\ calls (snd (fst (tokenRenew kept lease))) = calls kept.
Proof.
  intros lease gone kept.
  destruct (tokenRenew_follows_role gone lease "r1" eq_refl) as [Hgone _].
  destruct (tokenRenew_follows_role kept lease "r1" eq_refl) as [_ [Hkept Hcalls]].
  split; [|split].
  - apply Hgone. vm_compute. reflexivity.
  - destruct (Hkept (mkRole "alice" 0 "" "" (seconds 60) (seconds 120)))
      as [secret' [Hr [Ht [Hm _]]]]; [vm_compute; reflexivity|].
    exists secret'. split; [exact Hr|]. split; [exact Ht | exact Hm].
  - exact Hcalls.
Defined.

Lemma decode_role_no_panic (o : gmap string jval) (m : string) : decode_role o <> Panic m.
Proof.
  unfold decode_role, json_string, json_int.
  repeat match goal with
         | |- context [ ?o !! ?k ] => destruct (o !! k) as [[?|?]|]
         end; discriminate.
Qed.

Lemma getRole_no_panic (s : Storage) (name m : string) : getRole s name <> Panic m.
Proof.
  unfold getRole, storage_Get.
  destruct (decide (name = "")); [discriminate|].
  destruct (get_fault s); [discriminate|].
  destruct (entries s !! _) as [entry|]; [|discriminate].
  pose proof (decode_role_no_panic entry) as Hd.
  destruct (decode_role entry); try discriminate.
  intros [= ->]. exact (Hd m eq_refl).
Qed.

(** C10: by the value under the "role" key of the lease's internal data:
    with no such key renewal returns the missing-role error; with a value
    that is not a string it panics in the type assertion; with a string it
    does neither. *)
Theorem tokenRenew_role_type_assertion (w : World) (secret : Secret) :
  match InternalData secret !! "role" with
  | None =>
      tokenRenew w secret = (Fail "secret is missing role internal data", w, secret)
  | Some (VString _) =>
      fst (fst (tokenRenew w secret)) <> Fail "secret is missing role internal data"
      /\ forall m, fst (fst (tokenRenew w secret)) <> Panic m
  | Some _ =>
      tokenRenew w secret = (Panic type_assertion_panic, w, secret)
  end.
Proof.
  unfold tokenRenew.
  destruct (InternalData secret !! "role") as [[role|n|b]|]; try reflexivity.
  pose proof (getRole_no_panic (storage w) role) as Hp.
  destruct (getRole (storage w) role) as [[r|]|e|m]; simpl.
  - split; [discriminate|]. intros m; discriminate.
  - split; [discriminate|]. intros m; discriminate.
  - split; [discriminate|]. intros m; discriminate.
  - exfalso. exact (Hp m eq_refl).
Qed.

(** ** The client cache *)

(** Splits on the three emptiness tests of [newClient]. *)
Ltac newClient_fields :=
  repeat match goal with
         | |- context [ decide (?x = "") ] => destruct (decide (x = ""))
         end.

Lemma set_client_same (w : World) : set_client w (client w) = w.
Proof. destruct w; reflexivity. Qed.

Lemma getConfig_deleted (s : Storage) :
  get_fault s = None ->
  getConfig (mkStorage (delete configStoragePath (entries s))
               (get_fault s) (put_fault s) (delete_fault s)) = Ret None.
Proof.
  intros Hg. unfold getConfig, storage_Get; simpl.
  rewrite Hg, lookup_delete_eq. reflexivity.
Qed.

Lemma pathConfigWrite_faults (op : Operation) (data : ConfigFieldData) (w : World) :
  get_fault (storage (snd (pathConfigWrite op data w))) = get_fault (storage w)
  /\ delete_fault (storage (snd (pathConfigWrite op data w))) = delete_fault (storage w).
Proof.
  unfold pathConfigWrite.
  destruct (getConfig (storage w)) as [found|e|m]; try (split; reflexivity).
  destruct found as [c|], (bool_decide (op = CreateOperation));
    try (split; reflexivity);
    (destruct (configFields _ data _) as [config|e|m]; try (split; reflexivity);
     unfold storage_Put; destruct (put_fault (storage w)); split; reflexivity).
Qed.

Lemma getClient_unconfigured (w : World) :
  client w = None -> getConfig (storage w) = Ret None ->
  getClient w = (Fail "client username was not defined", w).
Proof.
  intros Hc Hg. unfold getClient. rewrite Hc, Hg. simpl.
  rewrite <- Hc. rewrite set_client_same. reflexivity.
Qed.

(** C8: a cached client is returned as it is, with nothing else changed;
    with no cached client and a stored configuration whose three fields are
    non-empty, a client built from that configuration is allocated, cached
    and returned (when the library's constructor succeeds); with no cached
    client and a configuration that is absent or has an empty field the call
    fails with the error of the client constructor and caches nothing; and
    after a configuration write followed by a delete the call fails. *)
Theorem getClient_contract (w : World) :
  (forall c, client w = Some c -> getClient w = (Ret c, w))
  /\ (forall config token,
        client w = None -> getConfig (storage w) = Ret (Some config) ->
        cfg_Username config <> "" -> cfg_Password config <> "" -> cfg_URL config <> "" ->
        NewClient_answer (upstream w) (cfg_URL config) (cfg_Username config)
          (cfg_Password config) = Ret token ->
        exists w',
          getClient w = (Ret (length (heap w)), w')
          /\ client w' = Some (length (heap w))
          /\ heap w' !! length (heap w)
             = Some (mkClient (cfg_URL config) (cfg_Username config)
                       (cfg_Password config) token)
          /\ storage w' = storage w)
  /\ (forall found,
        client w = None -> getConfig (storage w) = Ret found ->
        (found = None
         \/ exists config, found = Some config
              /\ (cfg_Username config = "" \/ cfg_Password config = ""
                  \/ cfg_URL config = "")) ->
        exists e,
          getClient w = (Fail e, w)
          /\ newClient (Some (default new_myConfig found)) w = (Fail e, w)
          /\ In e ["client username was not defined";
                   "client password was not defined";
                   "client URL was not defined"])
  /\ (forall op data,
        get_fault (storage w) = None -> delete_fault (storage w) = None ->
        let w2 := snd (pathConfigDelete (snd (pathConfigWrite op data w))) in
        getConfig (storage w2) = Ret None
        /\ getClient w2 = (Fail "client username was not defined", w2)).
Proof.
  split; [|split; [|split]].
  - intros c Hc. unfold getClient. rewrite Hc. reflexivity.
  - intros config token Hc Hg Hu Hp Hurl Hnew.
    unfold getClient. rewrite Hc, Hg. simpl. unfold newClient.
    newClient_fields; try contradiction.
    simpl. rewrite Hnew. eexists. split; [reflexivity|]. simpl.
    split; [reflexivity|]. split; [|reflexivity].
    rewrite lookup_app_r by lia. rewrite Nat.sub_diag. reflexivity.
  - intros found Hc Hg Hbad.
    assert (Hnew : exists e,
      newClient (Some (default new_myConfig found)) w = (Fail e, w)
      /\ In e ["client username was not defined";
               "client password was not defined";
               "client URL was not defined"]).
    { unfold newClient.
      destruct Hbad as [-> | [config [-> Hempty]]]; simpl.
      - eexists; split; [reflexivity|]. simpl; auto.
      - destruct (decide (cfg_Username config = "")).
        { eexists; split; [reflexivity|]. simpl; auto. }
        destruct (decide (cfg_Password config = "")).
        { eexists; split; [reflexivity|]. simpl; auto. }
        destruct (decide (cfg_URL config = "")).
        { eexists; split; [reflexivity|]. simpl; auto. }
        exfalso. destruct Hempty as [?|[?|?]]; contradiction. }
    destruct Hnew as [e [Hnew Hin]]. exists e. split; [|split; assumption].
    unfold getClient. rewrite Hc, Hg. cbv zeta. rewrite Hnew.
    rewrite <- Hc, set_client_same. reflexivity.
  - intros op data Hgf Hdf.
    destruct (pathConfigWrite_faults op data w) as [Hg1 Hd1].
    set (w1 := snd (pathConfigWrite op data w)) in *.
    rewrite Hgf in Hg1. rewrite Hdf in Hd1.
    unfold pathConfigDelete, storage_Delete. rewrite Hd1. simpl.
    assert (Hcfg : getConfig (mkStorage (delete configStoragePath (entries (storage w1)))
                     (get_fault (storage w1)) (put_fault (storage w1))
                     (delete_fault (storage w1))) = Ret None)
      by (apply getConfig_deleted; exact Hg1).
    split; [exact Hcfg|].
    apply getClient_unconfigured; [reflexivity | exact Hcfg].
Qed.

(** On a fresh mount configured for alice: the first call builds and caches
    client 0, the second returns that same pointer and changes nothing, and
    once the configuration is deleted again the call fails. *)
Lemma getClient_contract_witness :
  let w := configured_world upstream_ok in
  let w1 := snd (getClient w) in
  let w2 := snd (pathConfigDelete w) in
  client w = None
  /\ (exists w', getClient w = (Ret 0%nat, w') /\ client w' = Some 0%nat
        /\ heap w' !! 0%nat = Some (mkClient "https://api.example" "alice" "pw"
                                      "jwt-of-the-plugin")
        /\ storage w' = storage w)
  /\ getClient w1 = (Ret 0%nat, w1)
  /\ getConfig (storage w2) = Ret None
  /\ getClient w2 = (Fail "client username was not defined", w2).
Proof.
  intros w w1 w2.
  destruct (getClient_contract w) as [_ [Hbuild _]].
  destruct (getClient_contract w1) as [Hcached _].
  destruct (getClient_contract (fresh_world upstream_ok)) as [_ [_ [_ Hgone]]].
  split; [reflexivity|]. split; [|split].
  - apply (Hbuild (mkConfig "alice" "pw" "https://api.example") "jwt-of-the-plugin");
      try discriminate; vm_compute; reflexivity.
  - apply Hcached. vm_compute. reflexivity.
  - apply (Hgone CreateOperation alice_config); reflexivity.
Defined.

(** *** Cached pointers stay valid *)

Lemma world_ok_fresh (up : Upstream) : world_ok (fresh_world up) = true.
Proof. reflexivity. Qed.

Lemma world_ok_reset (w : World) : world_ok (reset w) = true.
Proof. reflexivity. Qed.

Lemma getClient_live (w w1 : World) (c : nat) :
  world_ok w = true -> getClient w = (Ret c, w1) ->
  is_Some (heap w1 !! c) /\ world_ok w1 = true.
Proof.
  unfold getClient, world_ok. intros Hok.
  destruct (client w) as [c0|] eqn:Hc.
  - intros [= <- <-]. rewrite Hc. split; [|exact Hok].
    apply lookup_lt_is_Some. apply bool_decide_eq_true_1 in Hok. exact Hok.
  - destruct (getConfig (storage w)) as [found|e|m]; try discriminate.
    cbv zeta. unfold newClient.
    newClient_fields; try discriminate.
    cbv zeta. destruct (NewClient_answer _ _ _ _) as [token|e|m]; try discriminate.
    intros [= <- <-]. simpl. rewrite length_app. simpl. split.
    + apply lookup_lt_is_Some. rewrite length_app. simpl. lia.
    + apply bool_decide_eq_true_2. lia.
Qed.

Lemma getClient_no_SignOut (w : World) :
  filter is_SignOut (calls (snd (getClient w))) = filter is_SignOut (calls w).
Proof.
  unfold getClient.
  destruct (client w); [reflexivity|].
  destruct (getConfig (storage w)) as [found|e|m]; try reflexivity.
  cbv zeta. unfold newClient.
  newClient_fields; try reflexivity.
  cbv zeta. destruct (NewClient_answer _ _ _ _) as [token|e|m]; reflexivity.
Qed.

Lemma deleteToken_live (w : World) (c : nat) (token : string) :
  is_Some (heap w !! c) ->
  exists w',
    deleteToken w c token = (Ret tt, w')
    /\ calls w' = CallSignOut token :: calls w
    /\ (exists cl, heap w' !! c = Some cl /\ client_Token cl = token)
    /\ client w' = client w /\ storage w' = storage w.
Proof.
  intros [cl Hcl]. unfold deleteToken. rewrite Hcl. cbv zeta.
  assert (Hlt : (c < length (heap w))%nat) by (eapply lookup_lt_Some; eauto).
  destruct (SignOut_answer _ _); eexists; (split; [reflexivity|]); simpl;
    (split; [reflexivity|]);
    (split; [|split; reflexivity]);
    eexists; (split; [apply list_lookup_insert_eq; exact Hlt | reflexivity]).
Qed.

Lemma invalidate_config (w : World) : client (invalidate "config" w) = None.
Proof. reflexivity. Qed.

Lemma pathConfigWrite_world_ok (op : Operation) (data : ConfigFieldData) (w : World) :
  world_ok w = true -> world_ok (snd (pathConfigWrite op data w)) = true.
Proof.
  intros Hok. unfold pathConfigWrite.
  destruct (getConfig (storage w)) as [found|e|m]; try exact Hok.
  destruct found as [c|], (bool_decide (op = CreateOperation));
    try exact Hok;
    (destruct (configFields _ data _) as [config|e|m]; try exact Hok;
     unfold storage_Put; destruct (put_fault (storage w)); [exact Hok | reflexivity]).
Qed.

Lemma pathConfigDelete_world_ok (w : World) :
  world_ok w = true -> world_ok (snd (pathConfigDelete w)) = true.
Proof.
  intros Hok. unfold pathConfigDelete, storage_Delete.
  destruct (delete_fault (storage w)); [exact Hok | reflexivity].
Qed.

Lemma getClient_world_ok (w : World) :
  world_ok w = true -> world_ok (snd (getClient w)) = true.
Proof.
  intros Hok. destruct (getClient w) as [[c|e|m] w1] eqn:Hget.
  - exact (proj2 (getClient_live w w1 c Hok Hget)).
  - revert Hget. unfold getClient.
    destruct (client w); [discriminate|].
    destruct (getConfig (storage w)) as [found|e0|m]; try discriminate.
    + cbv zeta. destruct (newClient _ w) as [[c|e1|m] w2]; try discriminate.
      intros [= _ <-]. reflexivity.
    + intros [= _ <-]. exact Hok.
  - revert Hget. unfold getClient.
    destruct (client w) eqn:Hc; [discriminate|].
    destruct (getConfig (storage w)) as [found|e0|m0]; try discriminate.
    + cbv zeta. unfold newClient.
      newClient_fields; try discriminate.
      cbv zeta. destruct (NewClient_answer _ _ _ _); try discriminate.
      intros [= _ <-]. unfold world_ok. simpl. rewrite Hc. reflexivity.
    + intros [= _ <-]. exact Hok.
Qed.

Lemma deleteToken_world_ok (w : World) (c : nat) (token : string) :
  world_ok w = true -> world_ok (snd (deleteToken w c token)) = true.
Proof.
  intros Hok. unfold deleteToken.
  destruct (heap w !! c); [|exact Hok]. cbv zeta.
  destruct (SignOut_answer _ _); unfold world_ok; simpl;
    rewrite length_insert; exact Hok.
Qed.

Lemma tokenRevoke_world_ok (w : World) (secret : Secret) :
  world_ok w = true -> world_ok (snd (tokenRevoke w secret)) = true.
Proof.
  intros Hok. pose proof (getClient_world_ok w Hok) as Hok1.
  unfold tokenRevoke.
  destruct (getClient w) as [[c|e|m] w1]; simpl in Hok1; try exact Hok1.
  destruct (InternalData secret !! "token") as [[token| |]|]; try exact Hok1.
  - pose proof (deleteToken_world_ok w1 c token Hok1) as Hok2.
    destruct (deleteToken w1 c token) as [[[]|e|m] w2]; exact Hok2.
  - pose proof (deleteToken_world_ok w1 c "" Hok1) as Hok2.
    destruct (deleteToken w1 c "") as [[[]|e|m] w2]; exact Hok2.
Qed.

Lemma pathCredentialsRead_world_ok (w : World) (roleName : string) :
  world_ok w = true -> world_ok (snd (pathCredentialsRead w roleName)) = true.
Proof.
  intros Hok. unfold pathCredentialsRead.
  destruct (getRole (storage w) roleName) as [[roleEntry|]|e|m]; try exact Hok.
  unfold createUserCreds, myBackend_createToken.
  pose proof (getClient_world_ok w Hok) as Hok1.
  destruct (getClient w) as [[c|e|m] w1]; simpl in Hok1; try exact Hok1.
  unfold createToken.
  destruct (heap w1 !! c); [|exact Hok1]. cbv zeta.
  destruct (SignIn_answer _ _); exact Hok1.
Qed.

(** ** Revocation *)

(** C3: when a client is obtained and the lease holds a string token,
    revocation signs out with that token and returns (nil, nil), whatever
    the upstream answers to the sign-out, an error included. *)
Theorem tokenRevoke_swallows_SignOut_error
    (w w1 : World) (secret : Secret) (c : nat) (token : string) :
  world_ok w = true ->
  getClient w = (Ret c, w1) ->
  InternalData secret !! "token" = Some (VString token) ->
  exists w2,
    tokenRevoke w secret = (Ret None, w2)
    /\ calls w2 = CallSignOut token :: calls w1
    /\ upstream w2 = upstream w1.
Proof.
  intros Hok Hget Htok.
  destruct (getClient_live w w1 c Hok Hget) as [Hlive _].
  destruct (deleteToken_live w1 c token Hlive) as [w2 [Hdel [Hcalls _]]].
  exists w2. unfold tokenRevoke. rewrite Hget, Htok, Hdel.
  split; [reflexivity|]. split; [exact Hcalls|].
  revert Hdel. unfold deleteToken. destruct Hlive as [cl ->]. cbv zeta.
  destruct (SignOut_answer _ _); intros [= <-]; reflexivity.
Qed.

(** Against an upstream whose sign-out answers "Invalid token". *)
Lemma tokenRevoke_swallows_SignOut_error_witness :
  let w := configured_world upstream_signout_fails in
  let lease := lease_of {[ "token" := VString "jwt-of-alice" ]} in
  (forall cl, SignOut_answer (upstream w) cl = Some "Invalid token")
  /\ exists w2,
       tokenRevoke w lease = (Ret None, w2)
       /\ calls w2 = CallSignOut "jwt-of-alice" :: calls (snd (getClient w))
       /\ upstream w2 = upstream (snd (getClient w)).
Proof.
  intros w lease. split; [reflexivity|].
  apply (tokenRevoke_swallows_SignOut_error w (snd (getClient w)) lease 0%nat
           "jwt-of-alice").
  - reflexivity.
  - vm_compute. reflexivity.
  - vm_compute. reflexivity.
Defined.

(** C1, as stated, fails: with a client available and no "token" key in
    the lease's internal data, revocation signs out with the empty token and
    returns (nil, nil). *)
Lemma tokenRevoke_missing_token_counterexample :
  InternalData lease_without_token !! "token" = None
  /\ fst (tokenRevoke (configured_world upstream_ok) lease_without_token) = Ret None
  /\ In (CallSignOut "")
        (calls (snd (tokenRevoke (configured_world upstream_ok) lease_without_token)))
  /\ ~ (exists e,
         fst (tokenRevoke (configured_world upstream_ok) lease_without_token) = Fail e).
Proof.
  assert (Hr : fst (tokenRevoke (configured_world upstream_ok) lease_without_token)
               = Ret None) by (vm_compute; reflexivity).
  split; [reflexivity|]. split; [exact Hr|]. split.
  - vm_compute. left. reflexivity.
  - intros [e He]. rewrite Hr in He. discriminate.
Qed.

(** C1, amended: when a client is obtained, a lease without a "token" key
    is revoked by signing out with the empty token and the call returns
    (nil, nil); a lease whose "token" is not a string makes the call fail
    with the invalid-token-value error, and no sign-out is made. *)
Theorem tokenRevoke_token_key (w w1 : World) (secret : Secret) (c : nat) :
  world_ok w = true ->
  getClient w = (Ret c, w1) ->
  (InternalData secret !! "token" = None ->
     exists w2, tokenRevoke w secret = (Ret None, w2)
                /\ calls w2 = CallSignOut "" :: calls w1)
  /\ (forall v, InternalData secret !! "token" = Some v ->
        (forall s, v <> VString s) ->
        tokenRevoke w secret
          = (Fail "invalid value for token in secret internal data", w1)
        /\ filter is_SignOut (calls (snd (tokenRevoke w secret)))
           = filter is_SignOut (calls w)).
Proof.
  intros Hok Hget.
  destruct (getClient_live w w1 c Hok Hget) as [Hlive _]. split.
  - intros Htok.
    destruct (deleteToken_live w1 c "" Hlive) as [w2 [Hdel [Hcalls _]]].
    exists w2. unfold tokenRevoke. rewrite Hget, Htok, Hdel. auto.
  - intros v Htok Hv.
    assert (Hr : tokenRevoke w secret
                 = (Fail "invalid value for token in secret internal data", w1)).
    { unfold tokenRevoke. rewrite Hget, Htok.
      destruct v as [s| |]; [exfalso; exact (Hv s eq_refl)| |]; reflexivity. }
    split; [exact Hr|]. rewrite Hr. simpl.
    rewrite <- (getClient_no_SignOut w), Hget. reflexivity.
Qed.

Lemma tokenRevoke_token_key_witness :
  let w := configured_world upstream_ok in
  let w1 := snd (getClient w) in
  (exists w2, tokenRevoke w (lease_of ∅) = (Ret None, w2)
              /\ calls w2 = CallSignOut "" :: calls w1)
  /\ tokenRevoke w (lease_of {[ "token" := VInt 42 ]})
     = (Fail "invalid value for token in secret internal data", w1)
  /\ filter is_SignOut (calls (snd (tokenRevoke w (lease_of {[ "token" := VInt 42 ]}))))
     = filter is_SignOut (calls w).
Proof.
  intros w w1.
  assert (Hok : world_ok w = true) by reflexivity.
  assert (Hget : getClient w = (Ret 0%nat, w1)) by (vm_compute; reflexivity).
  destruct (tokenRevoke_token_key w w1 (lease_of ∅) 0%nat Hok Hget) as [Habsent _].
  destruct (tokenRevoke_token_key w w1 (lease_of {[ "token" := VInt 42 ]}) 0%nat Hok Hget)
    as [_ Hbad].
  split.
  - apply Habsent. reflexivity.
  - apply (Hbad (VInt 42)); [vm_compute; reflexivity | discriminate].
Defined.

(** ** Configuration read *)

(** C2, at the failing input: with nothing stored under "config",
    [getConfig] answers (nil, nil) and [pathConfigRead] dereferences the nil
    configuration. *)
Theorem pathConfigRead_unconfigured_panics :
  getConfig empty_storage = Ret None
  /\ pathConfigRead empty_storage = Panic nil_dereference.
Proof. split; reflexivity. Qed.

(** With a record stored the response carries the username and the url and
    nothing else; in particular no password. *)
Lemma pathConfigRead_stored (s : Storage) (config : myConfig) :
  getConfig s = Ret (Some config) ->
  exists data,
    pathConfigRead s = Ret (Some (mkResponse None data))
    /\ data !! "username" = Some (VString (cfg_Username config))
    /\ data !! "url" = Some (VString (cfg_URL config))
    /\ forall k, k <> "username" -> k <> "url" -> data !! k = None.
Proof.
  intros Hg. unfold pathConfigRead. rewrite Hg. eexists. split; [reflexivity|].
  split; [apply lookup_insert_eq|]. split.
  - rewrite lookup_insert_ne by done. apply lookup_insert_eq.
  - intros k Hu Hl. rewrite !lookup_insert_ne by congruence. apply lookup_empty.
Qed.

(** ** Issued leases *)

(** What every successful issuance returns: the four public fields, the
    internal data handed to the framework (the token, and under "role" the
    role's username), and the role's TTL and MaxTTL where positive, the
    framework's zero default otherwise. *)
Lemma createUserCreds_lease (w w' : World) (role : myRoleEntry) (resp : Response) :
  createUserCreds w role = (Ret (Some resp), w') ->
  exists token secret,
    myBackend_createToken w role = (Ret token, w')
    /\ resp_Secret resp = Some secret
    /\ resp_Data resp
       = <[ "token" := VString (tok_Token token) ]>
         (<[ "token_id" := VString (tok_TokenID token) ]>
         (<[ "user_id" := VInt (tok_UserID token) ]>
         (<[ "username" := VString (tok_Username token) ]> ∅)))
    /\ InternalData secret
       = <[ "secret_type" := VString myTokenType ]>
         (<[ "token" := VString (tok_Token token) ]>
         (<[ "role" := VString (Username role) ]> ∅))
    /\ sec_TTL secret = (if bool_decide (TTL role > 0) then TTL role else 0)
    /\ sec_MaxTTL secret = (if bool_decide (MaxTTL role > 0) then MaxTTL role else 0).
Proof.
  unfold createUserCreds.
  destruct (myBackend_createToken w role) as [[token|e|m] w0]; try discriminate.
  simpl. intros [= <- <-]. exists token. eexists.
  split; [reflexivity|]. split; [reflexivity|]. split; [reflexivity|].
  rewrite apply_role_ttls_InternalData, apply_role_ttls_TTL, apply_role_ttls_MaxTTL.
  simpl. auto.
Qed.

(** C4, at the failing input: role r1 is stored with username alice; the
    lease issued for r1 records "alice" under "role", and renewing that
    lease looks up a role named alice and fails although r1 is stored. *)
Theorem createUserCreds_binds_username :
  let w := world_with_r1 upstream_ok in
  is_Ret (getRole (storage w) "r1") = true
  /\ match pathCredentialsRead w "r1" with
     | (Ret (Some resp), w') =>
       match resp_Secret resp with
       | Some secret =>
           InternalData secret !! "role" = Some (VString "alice")
           /\ InternalData secret !! "role" <> Some (VString "r1")
           /\ fst (fst (tokenRenew w' secret))
              = Fail "error retrieving role: role is nil"
       | None => False
       end
     | _ => False
     end.
Proof.
  intros w. split; [vm_compute; reflexivity|].
  vm_compute. split; [reflexivity|]. split; [discriminate | reflexivity].
Qed.

(** * Further properties of the stores, the cache and the handlers *)

(** ** Configuration store *)

Lemma set_storage_same (w : World) : set_storage w (storage w) = w.
Proof. destruct w; reflexivity. Qed.

Lemma getConfig_get_fault (s : Storage) (found : option myConfig) :
  getConfig s = Ret found -> get_fault s = None.
Proof.
  unfold getConfig, storage_Get. destruct (get_fault s); [discriminate | reflexivity].
Qed.

Lemma getConfig_put_config (s : Storage) (c : myConfig) :
  get_fault s = None ->
  getConfig (put_entry s configStoragePath (encode_config c)) = Ret (Some c).
Proof.
  intros Hg. unfold getConfig, storage_Get, put_entry; simpl.
  rewrite Hg, lookup_insert_eq, decode_encode_config. reflexivity.
Qed.

Lemma configFields_merged (createOperation : bool) (data : ConfigFieldData)
    (c c' : myConfig) :
  configFields createOperation data c = Ret c' -> c' = merged_config c data.
Proof.
  destruct data as [[u|] [url|] [p|]], c as [cu cp curl], createOperation;
    unfold configFields, merged_config; simpl; intros H;
    first [discriminate | injection H as <-; reflexivity].
Qed.

(** What a configuration write that returns (nil, nil) has done. *)
Lemma pathConfigWrite_success (op : Operation) (data : ConfigFieldData) (w w' : World) :
  pathConfigWrite op data w = (Ret None, w') ->
  exists prior,
    getConfig (storage w) = Ret prior
    /\ w' = reset (set_storage w
               (put_entry (storage w) configStoragePath
                  (encode_config (merged_config (default new_myConfig prior) data)))).
Proof.
  unfold pathConfigWrite.
  destruct (getConfig (storage w)) as [prior|e|m]; try discriminate.
  intros H. exists prior. split; [reflexivity|].
  destruct prior as [c|], (bool_decide (op = CreateOperation)); try discriminate;
    (destruct (configFields _ data _) as [config|e|m] eqn:Hc; try discriminate;
     apply configFields_merged in Hc; subst config;
     revert H; unfold storage_Put;
     destruct (put_fault (storage w)) eqn:Hp; [discriminate|];
     intros [= <-]; unfold put_entry; rewrite Hp; reflexivity).
Qed.

Lemma pathConfigWrite_then_getConfig_aux
    (op : Operation) (data : ConfigFieldData) (w w' : World) :
  pathConfigWrite op data w = (Ret None, w') ->
  exists config, getConfig (storage w') = Ret (Some config).
Proof.
  intros H. destruct (pathConfigWrite_success op data w w' H) as [prior [Hg ->]].
  eexists. simpl. apply getConfig_put_config. exact (getConfig_get_fault _ _ Hg).
Qed.

(** X1: after a configuration write that returns (nil, nil), reading the
    configuration back gives the prior record (an empty one when there was
    none) with the supplied fields written over it; the cached client is
    cleared, and no client object or upstream call is made. *)
Theorem pathConfigWrite_then_getConfig
    (op : Operation) (data : ConfigFieldData) (w w' : World) :
  pathConfigWrite op data w = (Ret None, w') ->
  exists prior,
    getConfig (storage w) = Ret prior
    /\ getConfig (storage w')
       = Ret (Some (merged_config (default new_myConfig prior) data))
    /\ client w' = None
    /\ heap w' = heap w
    /\ calls w' = calls w.
Proof.
  intros H. destruct (pathConfigWrite_success op data w w' H) as [prior [Hg ->]].
  exists prior. split; [exact Hg|]. simpl.
  split; [|auto].
  apply getConfig_put_config. exact (getConfig_get_fault _ _ Hg).
Qed.

(** An update of alice's configuration that supplies only a new url. *)
Lemma pathConfigWrite_then_getConfig_witness :
  let w := configured_world upstream_ok in
  let data := mkConfigFieldData None (Some "https://api2.example") None in
  exists prior,
    getConfig (storage w) = Ret prior
    /\ getConfig (storage (snd (pathConfigWrite UpdateOperation data w)))
       = Ret (Some (merged_config (default new_myConfig prior) data))
    /\ client (snd (pathConfigWrite UpdateOperation data w)) = None
    /\ heap (snd (pathConfigWrite UpdateOperation data w)) = heap w
    /\ calls (snd (pathConfigWrite UpdateOperation data w)) = calls w.
Proof.
  intros w data.
  apply (pathConfigWrite_then_getConfig UpdateOperation data w).
  vm_compute. reflexivity.
Defined.

(** X2: a configuration write that fails, for whatever reason, leaves the
    world as it was: nothing is stored and a cached client stays cached. *)
Theorem pathConfigWrite_failure_changes_nothing
    (op : Operation) (data : ConfigFieldData) (w w' : World) (e : string) :
  pathConfigWrite op data w = (Fail e, w') -> w' = w.
Proof.
  unfold pathConfigWrite.
  destruct (getConfig (storage w)) as [prior|e0|m]; try discriminate;
    [|intros [= _ <-]; reflexivity].
  destruct prior as [c|], (bool_decide (op = CreateOperation));
    try (intros [= _ <-]; reflexivity);
    (destruct (configFields _ data _) as [config|e1|m];
     [ unfold storage_Put; destruct (put_fault (storage w)); [|discriminate];
       intros [= _ <-]; apply set_storage_same
     | intros [= _ <-]; reflexivity
     | discriminate ]).
Qed.

(** An update against storage that refuses the put, with client 0 cached. *)
Lemma pathConfigWrite_failure_changes_nothing_witness :
  let w0 := snd (getClient (configured_world upstream_ok)) in
  let w := set_storage w0 (faulty_put_storage (storage w0)) in
  let data := mkConfigFieldData None (Some "https://api2.example") None in
  client w = Some 0%nat /\ snd (pathConfigWrite UpdateOperation data w) = w.
Proof.
  intros w0 w data. split; [reflexivity|].
  apply (pathConfigWrite_failure_changes_nothing UpdateOperation data w _
           "storage is sealed").
  vm_compute. reflexivity.
Defined.

(** X3: which writes the configuration path refuses, and with which error:
    an update when nothing is stored, and a create that lacks a field, the
    first missing one in the order username, url, password being named.
    The world is returned as it was. *)
Theorem pathConfigWrite_rejections
    (data : ConfigFieldData) (w : World) (found : option myConfig) :
  getConfig (storage w) = Ret found ->
  (forall op, found = None -> op <> CreateOperation ->
     pathConfigWrite op data w = (Fail "config not found during update operation", w))
  /\ (cfd_username data = None ->
        pathConfigWrite CreateOperation data w
          = (Fail "missing username in configuration", w))
  /\ (forall u, cfd_username data = Some u -> cfd_url data = None ->
        pathConfigWrite CreateOperation data w
          = (Fail "missing url in configuration", w))
  /\ (forall u url, cfd_username data = Some u -> cfd_url data = Some url ->
        cfd_password data = None ->
        pathConfigWrite CreateOperation data w
          = (Fail "missing password in configuration", w)).
Proof.
  intros Hg. unfold pathConfigWrite. rewrite Hg.
  split; [|split; [|split]].
  - intros op -> Hop. rewrite bool_decide_eq_false_2 by exact Hop. reflexivity.
  - intros Hu. change (bool_decide (CreateOperation = CreateOperation)) with true.
    unfold configFields. rewrite Hu. destruct found; reflexivity.
  - intros u Hu Hurl. change (bool_decide (CreateOperation = CreateOperation)) with true.
    unfold configFields. rewrite Hu, Hurl. destruct found; reflexivity.
  - intros u url Hu Hurl Hp.
    change (bool_decide (CreateOperation = CreateOperation)) with true.
    unfold configFields. rewrite Hu, Hurl, Hp. destruct found; reflexivity.
Qed.

Lemma pathConfigWrite_rejections_witness :
  let w := fresh_world upstream_ok in
  pathConfigWrite UpdateOperation alice_config w
    = (Fail "config not found during update operation", w)
  /\ pathConfigWrite CreateOperation (mkConfigFieldData None None None) w
     = (Fail "missing username in configuration", w)
  /\ pathConfigWrite CreateOperation (mkConfigFieldData (Some "alice") None None) w
     = (Fail "missing url in configuration", w)
  /\ pathConfigWrite CreateOperation
       (mkConfigFieldData (Some "alice") (Some "https://api.example") None) w
     = (Fail "missing password in configuration", w).
Proof.
  intros w.
  assert (Hg : getConfig (storage w) = Ret None) by reflexivity.
  split; [|split; [|split]].
  - apply (proj1 (pathConfigWrite_rejections alice_config w None Hg));
      [reflexivity | discriminate].
  - apply (proj1 (proj2 (pathConfigWrite_rejections _ w None Hg))). reflexivity.
  - apply (proj1 (proj2 (proj2 (pathConfigWrite_rejections _ w None Hg))) "alice");
      reflexivity.
  - apply (proj2 (proj2 (proj2 (pathConfigWrite_rejections _ w None Hg)))
             "alice" "https://api.example"); reflexivity.
Defined.

(** The world [getClient] leaves when it builds a client. *)
Lemma getClient_build (w : World) (config : myConfig) (token : string) :
  client w = None ->
  getConfig (storage w) = Ret (Some config) ->
  cfg_Username config <> "" -> cfg_Password config <> "" -> cfg_URL config <> "" ->
  NewClient_answer (upstream w) (cfg_URL config) (cfg_Username config)
    (cfg_Password config) = Ret token ->
  exists w',
    getClient w = (Ret (length (heap w)), w')
    /\ client w' = Some (length (heap w))
    /\ heap w' = (heap w ++ [mkClient (cfg_URL config) (cfg_Username config)
                               (cfg_Password config) token])%list
    /\ storage w' = storage w
    /\ calls w' = CallNewClient (cfg_URL config) (cfg_Username config)
                    (cfg_Password config) :: calls w.
Proof.
  intros Hc Hg Hu Hp Hurl Hnew.
  unfold getClient. rewrite Hc, Hg. simpl. unfold newClient.
  newClient_fields; try contradiction.
  simpl. rewrite Hnew. eexists. split; [reflexivity|]. simpl. auto.
Qed.

Lemma lookup_app_new {A} (l : list A) (x : A) : (l ++ [x])%list !! length l = Some x.
Proof. rewrite lookup_app_r by lia. rewrite Nat.sub_diag. reflexivity. Qed.

(** X4: a configuration write that returns (nil, nil) makes the next
    [getClient] build a client from the configuration now stored, at a
    pointer different from the one that was cached before. *)
Theorem pathConfigWrite_then_getClient
    (op : Operation) (data : ConfigFieldData) (w w1 : World)
    (config : myConfig) (token : string) :
  world_ok w = true ->
  pathConfigWrite op data w = (Ret None, w1) ->
  getConfig (storage w1) = Ret (Some config) ->
  cfg_Username config <> "" -> cfg_Password config <> "" -> cfg_URL config <> "" ->
  NewClient_answer (upstream w) (cfg_URL config) (cfg_Username config)
    (cfg_Password config) = Ret token ->
  exists c w2,
    getClient w1 = (Ret c, w2)
    /\ client w2 = Some c
    /\ heap w2 !! c = Some (mkClient (cfg_URL config) (cfg_Username config)
                              (cfg_Password config) token)
    /\ client w <> Some c.
Proof.
  intros Hok Hw Hg Hu Hp Hurl Hnew.
  destruct (pathConfigWrite_success op data w w1 Hw) as [prior [_ Hw1]].
  assert (Hc1 : client w1 = None) by (rewrite Hw1; reflexivity).
  assert (Hh1 : heap w1 = heap w) by (rewrite Hw1; reflexivity).
  assert (Hup : upstream w1 = upstream w) by (rewrite Hw1; reflexivity).
  rewrite <- Hup in Hnew.
  destruct (getClient_build w1 config token Hc1 Hg Hu Hp Hurl Hnew)
    as [w2 [Hget [Hc2 [Hh2 _]]]].
  exists (length (heap w1)), w2. split; [exact Hget|]. split; [exact Hc2|]. split.
  - rewrite Hh2. apply lookup_app_new.
  - rewrite Hh1. unfold world_ok in Hok. destruct (client w) as [c0|]; [|discriminate].
    apply bool_decide_eq_true_1 in Hok. intros [= ->]. lia.
Qed.

(** With client 0 cached for alice, the configuration is updated to another
    url; the next client is object 1 and talks to the new url. *)
Lemma pathConfigWrite_then_getClient_witness :
  let w := snd (getClient (configured_world upstream_ok)) in
  let data := mkConfigFieldData None (Some "https://api2.example") None in
  let w1 := snd (pathConfigWrite UpdateOperation data w) in
  client w = Some 0%nat
  /\ exists c w2,
       getClient w1 = (Ret c, w2)
       /\ client w2 = Some c
       /\ heap w2 !! c = Some (mkClient "https://api2.example" "alice" "pw"
                                 "jwt-of-the-plugin")
       /\ client w <> Some c.
Proof.
  intros w data w1. split; [reflexivity|].
  apply (pathConfigWrite_then_getClient UpdateOperation data w w1
           (mkConfig "alice" "pw" "https://api2.example") "jwt-of-the-plugin");
    try discriminate; vm_compute; reflexivity.
Defined.

(** *** The configuration key and the role keys never meet *)

Lemma role_key_not_config (name : string) : "role/" +:+ name <> configStoragePath.
Proof. simpl. discriminate. Qed.

Lemma role_key_inj (a b : string) : "role/" +:+ a = "role/" +:+ b -> a = b.
Proof. simpl. intros [= H]. exact H. Qed.

Lemma getRole_put_other (s : Storage) (key name : string) (v : gmap string jval) :
  key <> "role/" +:+ name ->
  getRole (put_entry s key v) name = getRole s name.
Proof.
  intros Hk. unfold getRole, storage_Get, put_entry; simpl.
  destruct (decide (name = "")); [reflexivity|].
  destruct (get_fault s); [reflexivity|].
  rewrite lookup_insert_ne by exact Hk. reflexivity.
Qed.

Lemma getRole_delete_other (s : Storage) (key name : string) :
  key <> "role/" +:+ name ->
  getRole (delete_entry s key) name = getRole s name.
Proof.
  intros Hk. unfold getRole, storage_Get, delete_entry; simpl.
  destruct (decide (name = "")); [reflexivity|].
  destruct (get_fault s); [reflexivity|].
  rewrite lookup_delete_ne by exact Hk. reflexivity.
Qed.

Lemma getConfig_put_other (s : Storage) (key : string) (v : gmap string jval) :
  key <> configStoragePath ->
  getConfig (put_entry s key v) = getConfig s.
Proof.
  intros Hk. unfold getConfig, storage_Get, put_entry; simpl.
  destruct (get_fault s); [reflexivity|].
  rewrite lookup_insert_ne by exact Hk. reflexivity.
Qed.

Lemma getConfig_delete_other (s : Storage) (key : string) :
  key <> configStoragePath ->
  getConfig (delete_entry s key) = getConfig s.
Proof.
  intros Hk. unfold getConfig, storage_Get, delete_entry; simpl.
  destruct (get_fault s); [reflexivity|].
  rewrite lookup_delete_ne by exact Hk. reflexivity.
Qed.

(** X5: deleting the configuration.  When storage refuses the delete the
    error is returned and the world, cached client included, is as before.
    Otherwise the call returns (nil, nil), nothing is left under the
    configuration key, the cached client is cleared, every role reads as
    before, and deleting again succeeds and changes nothing further. *)
Theorem pathConfigDelete_effect (w : World) :
  match delete_fault (storage w) with
  | Some e => pathConfigDelete w = (Fail e, w)
  | None =>
      fst (pathConfigDelete w) = Ret None
      /\ client (snd (pathConfigDelete w)) = None
      /\ entries (storage (snd (pathConfigDelete w))) !! configStoragePath = None
      /\ (forall name, getRole (storage (snd (pathConfigDelete w))) name
                       = getRole (storage w) name)
      /\ heap (snd (pathConfigDelete w)) = heap w
      /\ calls (snd (pathConfigDelete w)) = calls w
      /\ pathConfigDelete (snd (pathConfigDelete w))
         = (Ret None, snd (pathConfigDelete w))
  end.
Proof.
  unfold pathConfigDelete at 1 2 3 4 5 6 7 9, storage_Delete.
  destruct (delete_fault (storage w)) as [e|] eqn:Hd.
  - rewrite set_storage_same. reflexivity.
  - simpl. split; [reflexivity|]. split; [reflexivity|].
    split; [apply lookup_delete_eq|]. split.
    + intros name.
      apply (getRole_delete_other (storage w) configStoragePath name).
      intros H. exact (role_key_not_config name (eq_sym H)).
    + split; [reflexivity|]. split; [reflexivity|].
      unfold pathConfigDelete, storage_Delete. simpl. rewrite Hd.
      unfold reset, set_client, set_storage. simpl.
      rewrite delete_delete_eq. reflexivity.
Qed.

(** X6: the existence check of the configuration path answers false
    exactly when [getConfig] finds no configuration; so it answers true
    after a write that returned (nil, nil) and false after a delete that
    did, and a storage error comes back wrapped. *)
Theorem pathConfigExistenceCheck_tracks_config :
  (forall s, pathConfigExistenceCheck s configStoragePath = Ret false
             <-> getConfig s = Ret None)
  /\ (forall op data w w',
        pathConfigWrite op data w = (Ret None, w') ->
        pathConfigExistenceCheck (storage w') configStoragePath = Ret true)
  /\ (forall w w',
        get_fault (storage w) = None ->
        pathConfigDelete w = (Ret None, w') ->
        pathConfigExistenceCheck (storage w') configStoragePath = Ret false)
  /\ (forall s path e,
        get_fault s = Some e ->
        pathConfigExistenceCheck s path = Fail ("existence check failed: " +:+ e)).
Proof.
  split; [|split; [|split]].
  - intros s. unfold pathConfigExistenceCheck, getConfig, storage_Get.
    destruct (get_fault s); [split; discriminate|].
    destruct (entries s !! configStoragePath) as [entry|].
    + split; [discriminate|]. destruct (decode_config entry); discriminate.
    + split; reflexivity.
  - intros op data w w' Hw.
    destruct (pathConfigWrite_success op data w w' Hw) as [prior [Hg ->]].
    apply getConfig_get_fault in Hg.
    unfold pathConfigExistenceCheck, storage_Get; simpl.
    rewrite Hg, lookup_insert_eq. reflexivity.
  - intros w w' Hg. unfold pathConfigDelete, storage_Delete.
    destruct (delete_fault (storage w)); [discriminate|].
    intros [= <-]. unfold pathConfigExistenceCheck, storage_Get; simpl.
    rewrite Hg, lookup_delete_eq. reflexivity.
  - intros s path e Hg. unfold pathConfigExistenceCheck, storage_Get.
    rewrite Hg. reflexivity.
Qed.

(** X7: after a configuration write that returned (nil, nil), reading the
    configuration path returns the username and the url now stored, and no
    other key: the password is never part of the response. *)
Theorem pathConfigRead_after_write
    (op : Operation) (data : ConfigFieldData) (w w' : World) :
  pathConfigWrite op data w = (Ret None, w') ->
  exists config respData,
    getConfig (storage w') = Ret (Some config)
    /\ pathConfigRead (storage w') = Ret (Some (mkResponse None respData))
    /\ respData !! "username" = Some (VString (cfg_Username config))
    /\ respData !! "url" = Some (VString (cfg_URL config))
    /\ respData !! "password" = None
    /\ forall k, k <> "username" -> k <> "url" -> respData !! k = None.
Proof.
  intros Hw.
  destruct (pathConfigWrite_then_getConfig_aux op data w w' Hw) as [config Hg].
  destruct (pathConfigRead_stored (storage w') config Hg)
    as [respData [Hr [Hu [Hurl Hrest]]]].
  exists config, respData. split; [exact Hg|]. split; [exact Hr|].
  split; [exact Hu|]. split; [exact Hurl|]. split; [|exact Hrest].
  apply Hrest; discriminate.
Qed.

Lemma pathConfigRead_after_write_witness :
  let w' := configured_world upstream_ok in
  exists config respData,
    getConfig (storage w') = Ret (Some config)
    /\ pathConfigRead (storage w') = Ret (Some (mkResponse None respData))
    /\ respData !! "username" = Some (VString (cfg_Username config))
    /\ respData !! "url" = Some (VString (cfg_URL config))
    /\ respData !! "password" = None
    /\ forall k, k <> "username" -> k <> "url" -> respData !! k = None.
Proof.
  intros w'.
  apply (pathConfigRead_after_write CreateOperation alice_config
           (fresh_world upstream_ok) w').
  vm_compute. reflexivity.
Defined.

(** ** Client cache *)

Lemma getClient_caches (w w1 : World) (c : nat) :
  getClient w = (Ret c, w1) -> client w1 = Some c.
Proof.
  unfold getClient. destruct (client w) as [c0|] eqn:Hc.
  - intros [= <- <-]. exact Hc.
  - destruct (getConfig (storage w)) as [found|e|m]; try discriminate.
    cbv zeta. destruct (newClient _ w) as [[c1|e|m] w2]; try discriminate.
    intros [= <- <-]. reflexivity.
Qed.

(** X8: once [getClient] has returned a client, calling it again returns
    the same pointer and changes nothing: no second client is built and no
    upstream call is made. *)
Theorem getClient_again (w w1 : World) (c : nat) :
  getClient w = (Ret c, w1) -> getClient w1 = (Ret c, w1).
Proof.
  intros H. apply getClient_caches in H. unfold getClient. rewrite H. reflexivity.
Qed.

Lemma getClient_again_witness :
  let w := configured_world upstream_ok in
  getClient (snd (getClient w)) = (Ret 0%nat, snd (getClient w)).
Proof.
  intros w. apply (getClient_again w). vm_compute. reflexivity.
Defined.

(** X9: what [getClient] can touch.  It never writes storage and never
    draws a token id; client objects already allocated stay as they are and
    at most one is added; the only upstream call it can make is one call of
    the library constructor; and with a client cached it changes nothing. *)
Theorem getClient_footprint (w : World) :
  storage (snd (getClient w)) = storage w
  /\ uuid_count (snd (getClient w)) = uuid_count w
  /\ upstream (snd (getClient w)) = upstream w
  /\ (exists added, heap (snd (getClient w)) = (heap w ++ added)%list
                    /\ (length added <= 1)%nat)
  /\ (calls (snd (getClient w)) = calls w
      \/ exists url username password,
           calls (snd (getClient w)) = CallNewClient url username password :: calls w)
  /\ (client w <> None -> snd (getClient w) = w).
Proof.
  assert (Hnil : forall h : list hashicupsClient,
            exists added, h = (h ++ added)%list /\ (length added <= 1)%nat).
  { intros h. exists []. rewrite app_nil_r. auto. }
  unfold getClient.
  destruct (client w) as [c|] eqn:Hc.
  { simpl. repeat split; auto. }
  destruct (getConfig (storage w)) as [found|e|m];
    try (simpl; repeat split; auto; intros H; contradiction).
  cbv zeta. unfold newClient.
  newClient_fields;
    try (simpl; rewrite <- Hc, set_client_same; repeat split; auto;
         intros H; rewrite Hc in H; contradiction).
  cbv zeta. destruct (NewClient_answer _ _ _ _) as [token|e|m]; simpl;
    repeat split; eauto; try (right; eauto); intros H; contradiction.
Qed.

(** X10: when the library constructor fails, [getClient] returns its error
    and caches nothing, so the next call asks the constructor again. *)
Theorem getClient_constructor_failure (w : World) (config : myConfig) (e : string) :
  client w = None ->
  getConfig (storage w) = Ret (Some config) ->
  cfg_Username config <> "" -> cfg_Password config <> "" -> cfg_URL config <> "" ->
  NewClient_answer (upstream w) (cfg_URL config) (cfg_Username config)
    (cfg_Password config) = Fail e ->
  exists w' w'',
    getClient w = (Fail e, w')
    /\ client w' = None
    /\ heap w' = heap w
    /\ calls w' = CallNewClient (cfg_URL config) (cfg_Username config)
                    (cfg_Password config) :: calls w
    /\ getClient w' = (Fail e, w'')
    /\ calls w'' = CallNewClient (cfg_URL config) (cfg_Username config)
                     (cfg_Password config) :: calls w'.
Proof.
  intros Hc Hg Hu Hp Hurl Hnew.
  assert (Hstep : forall v, client v = None -> storage v = storage w ->
    upstream v = upstream w ->
    getClient v
    = (Fail e, set_client
                 (log_call v (CallNewClient (cfg_URL config) (cfg_Username config)
                                (cfg_Password config))) None)).
  { intros v Hcv Hsv Huv. unfold getClient. rewrite Hcv, Hsv, Hg. simpl.
    unfold newClient. newClient_fields; try contradiction.
    simpl. rewrite Huv, Hnew. reflexivity. }
  eexists. eexists. split; [apply Hstep; auto|].
  simpl. split; [reflexivity|]. split; [reflexivity|]. split; [reflexivity|].
  split; [apply Hstep; reflexivity|]. reflexivity.
Qed.

Lemma getClient_constructor_failure_witness :
  let w := configured_world upstream_down in
  exists w' w'',
    getClient w = (Fail "connection refused", w')
    /\ client w' = None
    /\ heap w' = heap w
    /\ calls w' = CallNewClient "https://api.example" "alice" "pw" :: calls w
    /\ getClient w' = (Fail "connection refused", w'')
    /\ calls w'' = CallNewClient "https://api.example" "alice" "pw" :: calls w'.
Proof.
  intros w.
  apply (getClient_constructor_failure w (mkConfig "alice" "pw" "https://api.example")
           "connection refused");
    try discriminate; vm_compute; reflexivity.
Defined.

(** X11: [invalidate] reacts to the configuration key only: for any other
    key the world is unchanged, and after the configuration key the next
    [getClient] builds a new client from the configuration in storage,
    whatever was cached. *)
Theorem invalidate_effect (w : World) :
  (forall key, key <> "config" -> invalidate key w = w)
  /\ client (invalidate "config" w) = None
  /\ (forall config token,
        getConfig (storage w) = Ret (Some config) ->
        cfg_Username config <> "" -> cfg_Password config <> "" ->
        cfg_URL config <> "" ->
        NewClient_answer (upstream w) (cfg_URL config) (cfg_Username config)
          (cfg_Password config) = Ret token ->
        exists w',
          getClient (invalidate "config" w) = (Ret (length (heap w)), w')
          /\ heap w' !! length (heap w)
             = Some (mkClient (cfg_URL config) (cfg_Username config)
                       (cfg_Password config) token)).
Proof.
  split; [|split].
  - intros key Hk. unfold invalidate. destruct (decide (key = "config")); [contradiction|].
    reflexivity.
  - reflexivity.
  - intros config token Hg Hu Hp Hurl Hnew.
    destruct (getClient_build (invalidate "config" w) config token)
      as [w' [Hget [_ [Hh _]]]]; auto.
    exists w'. split; [exact Hget|]. rewrite Hh. apply lookup_app_new.
Qed.

(** ** Role store *)

Lemma role_validation (r : myRoleEntry) :
  bool_decide (MaxTTL r ≠ 0) && bool_decide (TTL r > MaxTTL r) = false <-> role_ttl_ok r.
Proof.
  unfold role_ttl_ok. rewrite andb_false_iff.
  rewrite !bool_decide_eq_false. split.
  - intros [H|H]; [left | right]; lia.
  - intros [H|H]; [left | right]; lia.
Qed.

(** The two ways a role write can end: storage untouched and a result
    other than (nil, nil), or the validated record put under the role's
    key. *)
Lemma pathRolesWrite_cases (op : Operation) (d : RoleFieldData) (s : Storage) :
  (snd (pathRolesWrite op d s) = s /\ fst (pathRolesWrite op d s) <> Ret None)
  \/ (exists name prior r,
        fd_name d = Some name
        /\ getRole s name = Ret prior
        /\ roleFields (bool_decide (op = CreateOperation)) d
             (default new_myRoleEntry prior) = Ret r
        /\ role_ttl_ok r
        /\ put_fault s = None
        /\ pathRolesWrite op d s
           = (Ret None, put_entry s ("role/" +:+ name) (encode_role r))).
Proof.
  unfold pathRolesWrite.
  destruct (fd_name d) as [name|]; [|left; split; [reflexivity | discriminate]].
  destruct (getRole s name) as [prior|e|m] eqn:Hget;
    try (left; split; [reflexivity | discriminate]).
  cbv zeta.
  destruct (roleFields _ d _) as [r|e|m] eqn:Hf;
    try (left; split; [reflexivity | discriminate]).
  destruct (_ && _) eqn:Hv; [left; split; [reflexivity | discriminate]|].
  apply role_validation in Hv.
  unfold setRole, storage_Put.
  destruct (put_fault s) eqn:Hp; [left; split; [reflexivity | discriminate]|].
  right. exists name, prior, r.
  repeat (split; [first [reflexivity | assumption]|]).
  unfold put_entry. rewrite Hp. reflexivity.
Qed.

Lemma getRole_put_same (s : Storage) (name : string) (prior : option myRoleEntry)
    (r : myRoleEntry) :
  getRole s name = Ret prior ->
  getRole (put_entry s ("role/" +:+ name) (encode_role r)) name = Ret (Some r).
Proof.
  intros Hget. destruct (getRole_get_fault _ _ _ Hget) as [Hne Hgf].
  unfold getRole, storage_Get, put_entry; simpl.
  destruct (decide (name = "")); [contradiction|].
  rewrite Hgf, lookup_insert_eq, decode_encode_role. reflexivity.
Qed.

(** X12: what a role write can touch: whatever its outcome, every role
    other than the one named reads as before and so does the
    configuration; and unless it returns (nil, nil) storage is exactly as
    it was. *)
Theorem pathRolesWrite_footprint (op : Operation) (d : RoleFieldData) (s : Storage) :
  (forall other, fd_name d <> Some other ->
     getRole (snd (pathRolesWrite op d s)) other = getRole s other)
  /\ getConfig (snd (pathRolesWrite op d s)) = getConfig s
  /\ (fst (pathRolesWrite op d s) <> Ret None -> snd (pathRolesWrite op d s) = s).
Proof.
  destruct (pathRolesWrite_cases op d s)
    as [[Hs Hr] | [name [prior [r [Hname [_ [_ [_ [_ Hw]]]]]]]]].
  - rewrite Hs. auto.
  - rewrite Hw. simpl. split; [|split].
    + intros other Ho. apply getRole_put_other.
      intros Hk. apply role_key_inj in Hk. subst other. contradiction.
    + apply getConfig_put_other. apply role_key_not_config.
    + intros H. exfalso. apply H. reflexivity.
Qed.

(** X13: a role write whose resulting record respects the bound
    (max_ttl = 0, or ttl <= max_ttl, equality included) is stored when
    storage accepts the put, and reads back as that record. *)
Theorem pathRolesWrite_accepts
    (op : Operation) (d : RoleFieldData) (s : Storage) (name : string)
    (prior : option myRoleEntry) (r : myRoleEntry) :
  fd_name d = Some name ->
  getRole s name = Ret prior ->
  roleFields (bool_decide (op = CreateOperation)) d (default new_myRoleEntry prior)
    = Ret r ->
  role_ttl_ok r ->
  put_fault s = None ->
  exists s', pathRolesWrite op d s = (Ret None, s')
             /\ getRole s' name = Ret (Some r).
Proof.
  intros Hname Hget Hf Hok Hp.
  exists (put_entry s ("role/" +:+ name) (encode_role r)). split.
  - unfold pathRolesWrite. rewrite Hname, Hget. cbv zeta. rewrite Hf.
    apply role_validation in Hok. rewrite Hok.
    unfold setRole, storage_Put, put_entry. rewrite Hp. reflexivity.
  - eapply getRole_put_same; eauto.
Qed.

(** Creating r2 with ttl = max_ttl = 60, and r3 with ttl = 1000 and no
    max_ttl. *)
Lemma pathRolesWrite_accepts_witness :
  let s := storage (world_with_r1 upstream_ok) in
  (exists s', pathRolesWrite CreateOperation
                (mkRoleFieldData (Some "r2") (Some "bob") (Some 60) (Some 60)) s
              = (Ret None, s')
              /\ getRole s' "r2"
                 = Ret (Some (mkRole "bob" 0 "" "" (seconds 60) (seconds 60))))
  /\ (exists s', pathRolesWrite CreateOperation
                   (mkRoleFieldData (Some "r3") (Some "bob") (Some 1000) None) s
                 = (Ret None, s')
                 /\ getRole s' "r3"
                    = Ret (Some (mkRole "bob" 0 "" "" (seconds 1000) 0))).
Proof.
  intros s. split.
  - apply (pathRolesWrite_accepts CreateOperation _ s "r2" None);
      try (vm_compute; reflexivity).
    right. vm_compute. discriminate.
  - apply (pathRolesWrite_accepts CreateOperation _ s "r3" None);
      try (vm_compute; reflexivity).
    left. reflexivity.
Defined.

Lemma getRole_delete_same (s : Storage) (name : string) (r : myRoleEntry) :
  getRole (delete_entry s ("role/" +:+ name)) name <> Ret (Some r).
Proof.
  unfold getRole, storage_Get, delete_entry; simpl.
  destruct (decide (name = "")); [discriminate|].
  destruct (get_fault s); [discriminate|].
  rewrite lookup_delete_eq. discriminate.
Qed.

Lemma pathRolesDelete_cases (d : RoleFieldData) (s : Storage) :
  snd (pathRolesDelete d s) = s
  \/ exists name, fd_name d = Some name /\ delete_fault s = None
                  /\ pathRolesDelete d s = (Ret None, delete_entry s ("role/" +:+ name)).
Proof.
  unfold pathRolesDelete.
  destruct (fd_name d) as [name|]; [|left; reflexivity].
  unfold storage_Delete.
  destruct (delete_fault s) eqn:Hd; [left; reflexivity|].
  right. exists name. split; [reflexivity|]. split; [reflexivity|].
  unfold delete_entry. rewrite Hd. reflexivity.
Qed.

(** X14: the role store keeps its TTL bound: if every role that can be
    read satisfies max_ttl = 0 or ttl <= max_ttl, the same holds after any
    role write and after any role delete, whatever their outcome. *)
Theorem role_store_ok_preserved (s : Storage) :
  role_store_ok s ->
  (forall op d, role_store_ok (snd (pathRolesWrite op d s)))
  /\ (forall d, role_store_ok (snd (pathRolesDelete d s))).
Proof.
  intros Hinv. split.
  - intros op d.
    destruct (pathRolesWrite_cases op d s)
      as [[Hs _] | [name [prior [r [_ [Hget [_ [Hok [_ Hw]]]]]]]]].
    + rewrite Hs. exact Hinv.
    + rewrite Hw. simpl. intros other r0.
      destruct (decide (other = name)) as [->|Hne].
      * rewrite (getRole_put_same s name prior r Hget). intros [= <-]. exact Hok.
      * rewrite getRole_put_other; [apply Hinv|].
        intros Hk. apply role_key_inj in Hk. congruence.
  - intros d.
    destruct (pathRolesDelete_cases d s) as [Hs | [name [_ [_ Hdel]]]].
    + rewrite Hs. exact Hinv.
    + rewrite Hdel. simpl. intros other r0.
      destruct (decide (other = name)) as [->|Hne].
      * intros H. exfalso. exact (getRole_delete_same s name r0 H).
      * rewrite getRole_delete_other; [apply Hinv|].
        intros Hk. apply role_key_inj in Hk. congruence.
Qed.

Lemma role_store_ok_empty : role_store_ok empty_storage.
Proof.
  intros name r. unfold getRole, storage_Get; simpl.
  destruct (decide (name = "")); [discriminate|].
  rewrite lookup_empty. discriminate.
Qed.

(** From an empty store: r1 is written, then an update tries to raise its
    ttl above max_ttl, then r1 is deleted; the bound holds throughout. *)
Lemma role_store_ok_preserved_witness :
  let s1 := snd (pathRolesWrite CreateOperation r1_fields empty_storage) in
  let d := mkRoleFieldData (Some "r1") None (Some 200) None in
  role_store_ok s1
  /\ role_store_ok (snd (pathRolesWrite UpdateOperation d s1))
  /\ role_store_ok (snd (pathRolesDelete r1_fields s1)).
Proof.
  intros s1 d.
  assert (H1 : role_store_ok s1)
    by exact (proj1 (role_store_ok_preserved empty_storage role_store_ok_empty)
                CreateOperation r1_fields).
  split; [exact H1|]. split.
  - exact (proj1 (role_store_ok_preserved s1 H1) UpdateOperation d).
  - exact (proj2 (role_store_ok_preserved s1 H1) r1_fields).
Defined.

(** X15: deleting a role.  When storage refuses the delete its error comes
    back wrapped and storage is as before.  Otherwise the call returns
    (nil, nil) whether or not the role existed, the role is gone, and every
    other role and the configuration read as before. *)
Theorem pathRolesDelete_effect (d : RoleFieldData) (s : Storage) (name : string) :
  fd_name d = Some name ->
  match delete_fault s with
  | Some e => pathRolesDelete d s = (Fail ("error deleting hashiCups role: " +:+ e), s)
  | None =>
      fst (pathRolesDelete d s) = Ret None
      /\ entries (snd (pathRolesDelete d s)) !! ("role/" +:+ name) = None
      /\ (name <> "" -> get_fault s = None ->
          getRole (snd (pathRolesDelete d s)) name = Ret None)
      /\ (forall other, other <> name ->
            getRole (snd (pathRolesDelete d s)) other = getRole s other)
      /\ getConfig (snd (pathRolesDelete d s)) = getConfig s
  end.
Proof.
  intros Hname. unfold pathRolesDelete. rewrite Hname. unfold storage_Delete.
  destruct (delete_fault s) as [e|] eqn:Hd; [reflexivity|].
  simpl. split; [reflexivity|]. split; [apply lookup_delete_eq|]. split; [|split].
  - intros Hne Hg. unfold getRole, storage_Get; simpl.
    destruct (decide (name = "")); [contradiction|].
    rewrite Hg, lookup_delete_eq. reflexivity.
  - intros other Ho.
    apply (getRole_delete_other s ("role/" +:+ name) other).
    intros Hk. apply role_key_inj in Hk. congruence.
  - apply (getConfig_delete_other s ("role/" +:+ name)). apply role_key_not_config.
Qed.

(** Deleting r1, which is stored, and r9, which is not. *)
Lemma pathRolesDelete_effect_witness :
  let s := storage (world_with_r1 upstream_ok) in
  let d9 := mkRoleFieldData (Some "r9") None None None in
  getRole (snd (pathRolesDelete r1_fields s)) "r1" = Ret None
  /\ fst (pathRolesDelete d9 s) = Ret None
  /\ getRole (snd (pathRolesDelete d9 s)) "r1" = getRole s "r1".
Proof.
  intros s d9.
  pose proof (pathRolesDelete_effect r1_fields s "r1" eq_refl) as H1.
  pose proof (pathRolesDelete_effect d9 s "r9" eq_refl) as H9.
  change (delete_fault s) with (@None string) in H1, H9. cbv iota in H1, H9.
  destruct H1 as [_ [_ [Hgone _]]]. destruct H9 as [Hr [_ [_ [Hother _]]]].
  split; [|split].
  - apply Hgone; [discriminate | reflexivity].
  - exact Hr.
  - apply Hother. discriminate.
Defined.

Lemma merged_role_twice (prior : myRoleEntry) (d : RoleFieldData) :
  merged_role (merged_role prior d) d = merged_role prior d.
Proof.
  destruct d as [n [u|] [t|] [m|]], prior; reflexivity.
Qed.

(** X16: a role update is idempotent: sending the fields of an update that
    was stored once more is accepted again and leaves storage exactly as
    the first update left it. *)
Theorem pathRolesWrite_update_twice (d : RoleFieldData) (s s1 : Storage) :
  pathRolesWrite UpdateOperation d s = (Ret None, s1) ->
  pathRolesWrite UpdateOperation d s1 = (Ret None, s1).
Proof.
  intros Hw.
  destruct (pathRolesWrite_cases UpdateOperation d s)
    as [[_ Hr] | [name [prior [r [Hname [Hget [Hf [Hok [Hp Hw']]]]]]]]].
  { rewrite Hw in Hr. exfalso. apply Hr. reflexivity. }
  rewrite Hw in Hw'. injection Hw' as ->.
  change (bool_decide (UpdateOperation = CreateOperation)) with false in Hf.
  rewrite roleFields_update in Hf. injection Hf as <-.
  pose proof (getRole_put_same s name prior
                (merged_role (default new_myRoleEntry prior) d) Hget) as Hget1.
  unfold pathRolesWrite. rewrite Hname, Hget1.
  cbv zeta. change (bool_decide (UpdateOperation = CreateOperation)) with false.
  simpl default. rewrite roleFields_update, merged_role_twice.
  apply role_validation in Hok. rewrite Hok.
  unfold setRole, storage_Put. simpl put_fault. rewrite Hp.
  unfold put_entry; simpl. rewrite insert_insert_eq, Hp. reflexivity.
Qed.

Lemma pathRolesWrite_update_twice_witness :
  let s := storage (world_with_r1 upstream_ok) in
  let d := mkRoleFieldData (Some "r1") None (Some 30) None in
  let s1 := snd (pathRolesWrite UpdateOperation d s) in
  pathRolesWrite UpdateOperation d s1 = (Ret None, s1).
Proof.
  intros s d s1. apply (pathRolesWrite_update_twice d s s1).
  vm_compute. reflexivity.
Defined.

(** X17: how the paths answer a role name that is missing or empty, in
    each case before storage is consulted and with the world unchanged: a
    write without a name gets the error response "missing role name", a
    write with the empty name gets the Go error of the same text, and
    issuance or renewal for the empty name fail with that error wrapped. *)
Theorem role_name_errors :
  (forall op d s, fd_name d = None ->
     pathRolesWrite op d s = (Ret (Some (ErrorResponse "missing role name")), s))
  /\ (forall op d s, fd_name d = Some "" ->
        pathRolesWrite op d s = (Fail "missing role name", s))
  /\ (forall w,
        pathCredentialsRead w "" = (Fail "error retrieving role: missing role name", w))
  /\ (forall w secret, InternalData secret !! "role" = Some (VString "") ->
        tokenRenew w secret
          = (Fail "error retrieving role: missing role name", w, secret)).
Proof.
  split; [|split; [|split]].
  - intros op d s H. unfold pathRolesWrite. rewrite H. reflexivity.
  - intros op d s H. unfold pathRolesWrite. rewrite H. reflexivity.
  - intros w. reflexivity.
  - intros w secret H. unfold tokenRenew. rewrite H. reflexivity.
Qed.

(** ** Issuance *)

Lemma getClient_keeps (w : World) :
  storage (snd (getClient w)) = storage w
  /\ uuids (snd (getClient w)) = uuids w
  /\ uuid_count (snd (getClient w)) = uuid_count w
  /\ upstream (snd (getClient w)) = upstream w.
Proof.
  unfold getClient.
  destruct (client w); [auto|].
  destruct (getConfig (storage w)) as [found|e|m]; auto.
  cbv zeta. unfold newClient. newClient_fields; auto.
  cbv zeta. destruct (NewClient_answer _ _ _ _); auto.
Qed.

(** X18: issuance end to end.  For a stored role, once a client is
    obtained and the upstream sign-in succeeds, the response carries the
    upstream token and user id, the next id of the id source, and the
    role's username; the lease is renewable, takes the role's TTL and
    MaxTTL where they are positive and zero otherwise, and keeps the token
    and the role's username as internal data.  One sign-in is made, one id
    is drawn, nothing is written to storage and the client stays cached. *)
Theorem pathCredentialsRead_issues
    (w w1 : World) (roleName : string) (role : myRoleEntry) (c : nat)
    (cl : hashicupsClient) (ar : AuthResponse) :
  getRole (storage w) roleName = Ret (Some role) ->
  getClient w = (Ret c, w1) ->
  heap w1 !! c = Some cl ->
  SignIn_answer (upstream w) cl = Ret ar ->
  exists secret w2,
    pathCredentialsRead w roleName
      = (Ret (Some (mkResponse (Some secret)
                      (<[ "token" := VString (ar_Token ar) ]>
                      (<[ "token_id" := VString (uuids w (uuid_count w)) ]>
                      (<[ "user_id" := VInt (ar_UserID ar) ]>
                      (<[ "username" := VString (Username role) ]> ∅)))))), w2)
    /\ InternalData secret
       = <[ "secret_type" := VString myTokenType ]>
         (<[ "token" := VString (ar_Token ar) ]>
         (<[ "role" := VString (Username role) ]> ∅))
    /\ sec_TTL secret = (if bool_decide (TTL role > 0) then TTL role else 0)
    /\ sec_MaxTTL secret = (if bool_decide (MaxTTL role > 0) then MaxTTL role else 0)
    /\ sec_Renewable secret = true
    /\ calls w2 = CallSignIn cl :: calls w1
    /\ uuid_count w2 = S (uuid_count w)
    /\ storage w2 = storage w
    /\ client w2 = Some c.
Proof.
  intros Hrole Hget Hcl Hin.
  destruct (getClient_keeps w) as [Hs [Hu [Hn Hup]]].
  pose proof (getClient_caches w w1 c Hget) as Hc.
  rewrite Hget in Hs, Hu, Hn, Hup. simpl in Hs, Hu, Hn, Hup.
  unfold pathCredentialsRead. rewrite Hrole.
  unfold createUserCreds, myBackend_createToken. rewrite Hget.
  unfold createToken. rewrite Hcl. cbv zeta. simpl upstream.
  rewrite Hup, Hin. simpl.
  eexists. eexists. split.
  - rewrite Hu, Hn. reflexivity.
  - rewrite apply_role_ttls_InternalData, apply_role_ttls_TTL, apply_role_ttls_MaxTTL.
    simpl. split; [reflexivity|]. split; [reflexivity|]. split; [reflexivity|].
    split; [unfold apply_role_ttls; repeat case_bool_decide; reflexivity|].
    split; [reflexivity|]. split; [congruence|]. split; [exact Hs | exact Hc].
Qed.

Lemma pathCredentialsRead_issues_witness :
  let w := world_with_r1 upstream_ok in
  let cl := mkClient "https://api.example" "alice" "pw" "jwt-of-the-plugin" in
  exists secret w2,
    pathCredentialsRead w "r1"
      = (Ret (Some (mkResponse (Some secret)
                      (<[ "token" := VString "jwt-of-alice" ]>
                      (<[ "token_id" := VString (uuids w (uuid_count w)) ]>
                      (<[ "user_id" := VInt 7 ]>
                      (<[ "username" := VString "alice" ]> ∅)))))), w2)
    /\ InternalData secret
       = <[ "secret_type" := VString myTokenType ]>
         (<[ "token" := VString "jwt-of-alice" ]>
         (<[ "role" := VString "alice" ]> ∅))
    /\ sec_TTL secret = seconds 60
    /\ sec_MaxTTL secret = seconds 120
    /\ sec_Renewable secret = true
    /\ calls w2 = CallSignIn cl :: calls (snd (getClient w))
    /\ uuid_count w2 = S (uuid_count w)
    /\ storage w2 = storage w
    /\ client w2 = Some 0%nat.
Proof.
  intros w cl.
  apply (pathCredentialsRead_issues w (snd (getClient w)) "r1"
           (mkRole "alice" 0 "" "" (seconds 60) (seconds 120)) 0%nat cl
           (mkAuthResponse 7 "alice" "jwt-of-alice"));
    vm_compute; reflexivity.
Defined.

(** X19: how issuance fails after the role was found.  If no client can be
    obtained, the error of [getClient] is returned as it is and the world
    is the one [getClient] left, so no sign-in was attempted.  If the
    sign-in fails, its error comes back under two "error creating HashiCups
    token" prefixes; the sign-in is the only thing that happened: no id is
    drawn and the client stays cached. *)
Theorem pathCredentialsRead_failures
    (w w1 : World) (roleName : string) (role : myRoleEntry) :
  getRole (storage w) roleName = Ret (Some role) ->
  (forall e, getClient w = (Fail e, w1) ->
     pathCredentialsRead w roleName = (Fail e, w1))
  /\ (forall c cl e,
        getClient w = (Ret c, w1) ->
        heap w1 !! c = Some cl ->
        SignIn_answer (upstream w) cl = Fail e ->
        pathCredentialsRead w roleName
          = (Fail ("error creating HashiCups token: error creating HashiCups token: "
                   +:+ e),
             log_call w1 (CallSignIn cl))).
Proof.
  intros Hrole. split.
  - intros e Hget. unfold pathCredentialsRead. rewrite Hrole.
    unfold createUserCreds, myBackend_createToken. rewrite Hget. reflexivity.
  - intros c cl e Hget Hcl Hin.
    destruct (getClient_keeps w) as [_ [_ [_ Hup]]].
    rewrite Hget in Hup. simpl in Hup.
    unfold pathCredentialsRead. rewrite Hrole.
    unfold createUserCreds, myBackend_createToken. rewrite Hget.
    unfold createToken. rewrite Hcl. cbv zeta. simpl upstream.
    rewrite Hup, Hin. reflexivity.
Qed.

(** Issuing for r1 with no configuration stored, and with an upstream that
    refuses the sign-in. *)
Lemma pathCredentialsRead_failures_witness :
  let unconfigured :=
    set_storage (fresh_world upstream_ok) (storage (world_with_r1 upstream_ok)) in
  let w0 := snd (pathConfigDelete unconfigured) in
  let w := world_with_r1 upstream_signin_fails in
  let cl := mkClient "https://api.example" "alice" "pw" "jwt-of-the-plugin" in
  pathCredentialsRead w0 "r1" = (Fail "client username was not defined", w0)
  /\ pathCredentialsRead w "r1"
     = (Fail ("error creating HashiCups token: error creating HashiCups token: "
              +:+ "Invalid password"),
        log_call (snd (getClient w)) (CallSignIn cl)).
Proof.
  intros unconfigured w0 w cl.
  assert (Hr : forall v, storage v = storage w0 \/ storage v = storage w ->
            getRole (storage v) "r1"
            = Ret (Some (mkRole "alice" 0 "" "" (seconds 60) (seconds 120)))).
  { intros v [-> | ->]; vm_compute; reflexivity. }
  split.
  - apply (proj1 (pathCredentialsRead_failures w0 w0 "r1" _ (Hr w0 (or_introl eq_refl)))).
    vm_compute. reflexivity.
  - apply (proj2 (pathCredentialsRead_failures w (snd (getClient w)) "r1" _
                    (Hr w (or_intror eq_refl))) 0%nat cl);
      vm_compute; reflexivity.
Defined.

Lemma getClient_heap (w : World) (i : nat) (cl : hashicupsClient) :
  heap w !! i = Some cl -> heap (snd (getClient w)) !! i = Some cl.
Proof.
  intros Hi. unfold getClient.
  destruct (client w); [exact Hi|].
  destruct (getConfig (storage w)) as [found|e|m]; try exact Hi.
  cbv zeta. unfold newClient. newClient_fields; try exact Hi.
  cbv zeta. destruct (NewClient_answer _ _ _ _); try exact Hi.
  simpl. apply lookup_app_l_Some. exact Hi.
Qed.

(** The part of the world issuance passes on from [getClient]. *)
Lemma pathCredentialsRead_after_getClient (w : World) (roleName : string) :
  let w' := snd (pathCredentialsRead w roleName) in
  w' = w
  \/ (storage w' = storage (snd (getClient w))
      /\ heap w' = heap (snd (getClient w))
      /\ uuids w' = uuids (snd (getClient w))
      /\ (calls w' = calls (snd (getClient w))
          \/ exists cl, calls w' = CallSignIn cl :: calls (snd (getClient w)))).
Proof.
  unfold pathCredentialsRead.
  destruct (getRole (storage w) roleName) as [[role|]|e|m]; try (left; reflexivity).
  right. unfold createUserCreds, myBackend_createToken.
  destruct (getClient w) as [[c|e|m] w1]; simpl; auto.
  unfold createToken.
  destruct (heap w1 !! c) as [cl|]; simpl; auto.
  destruct (SignIn_answer _ _); simpl; eauto 6.
Qed.

(** X20: what issuance never does, whatever its outcome: it writes nothing
    to storage (the credential is not persisted), it makes no sign-out
    call, and every client object that existed is left as it was. *)
Theorem pathCredentialsRead_footprint (w : World) (roleName : string) :
  storage (snd (pathCredentialsRead w roleName)) = storage w
  /\ filter is_SignOut (calls (snd (pathCredentialsRead w roleName)))
     = filter is_SignOut (calls w)
  /\ (forall i cl, heap w !! i = Some cl ->
        heap (snd (pathCredentialsRead w roleName)) !! i = Some cl).
Proof.
  destruct (getClient_keeps w) as [Hs _].
  pose proof (getClient_no_SignOut w) as Hso.
  destruct (pathCredentialsRead_after_getClient w roleName)
    as [-> | [Hst [Hh [_ Hcalls]]]]; [auto|].
  split; [congruence|]. split.
  - destruct Hcalls as [-> | [cl ->]]; exact Hso.
  - intros i cl Hi. rewrite Hh. apply getClient_heap. exact Hi.
Qed.

Lemma uuid_unary_inj (i j : nat) : uuid_unary i = uuid_unary j -> i = j.
Proof.
  revert j. induction i as [|i IH]; intros [|j]; simpl; try discriminate.
  - reflexivity.
  - intros [= H]. f_equal. apply IH. exact H.
Qed.

Lemma pathCredentialsRead_token_id (w w' : World) (roleName : string) (resp : Response) :
  pathCredentialsRead w roleName = (Ret (Some resp), w') ->
  resp_Data resp !! "token_id" = Some (VString (uuids w (uuid_count w)))
  /\ uuids w' = uuids w
  /\ uuid_count w' = S (uuid_count w).
Proof.
  destruct (getClient_keeps w) as [_ [Hu [Hn _]]].
  unfold pathCredentialsRead.
  destruct (getRole (storage w) roleName) as [[role|]|e|m]; try discriminate.
  unfold createUserCreds, myBackend_createToken.
  destruct (getClient w) as [[c|e|m] w1]; try discriminate.
  simpl in Hu, Hn. unfold createToken.
  destruct (heap w1 !! c) as [cl|]; try discriminate.
  cbv zeta. destruct (SignIn_answer _ _) as [ar|e|m]; try discriminate.
  simpl. intros [= <- <-]. simpl.
  rewrite lookup_insert_ne by done. rewrite lookup_insert_eq.
  rewrite Hu, Hn. auto.
Qed.

(** X21: token ids follow the id source: an issuance that succeeds returns
    the source's next id, so with a source that never repeats, two
    issuances one after the other return different token ids. *)
Theorem pathCredentialsRead_fresh_token_id
    (w w1 w2 : World) (name1 name2 : string) (resp1 resp2 : Response) :
  (forall i j, uuids w i = uuids w j -> i = j) ->
  pathCredentialsRead w name1 = (Ret (Some resp1), w1) ->
  pathCredentialsRead w1 name2 = (Ret (Some resp2), w2) ->
  resp_Data resp1 !! "token_id" = Some (VString (uuids w (uuid_count w)))
  /\ resp_Data resp2 !! "token_id" = Some (VString (uuids w (S (uuid_count w))))
  /\ resp_Data resp1 !! "token_id" <> resp_Data resp2 !! "token_id".
Proof.
  intros Hinj H1 H2.
  destruct (pathCredentialsRead_token_id w w1 name1 resp1 H1) as [Ht1 [Hu1 Hn1]].
  destruct (pathCredentialsRead_token_id w1 w2 name2 resp2 H2) as [Ht2 _].
  rewrite Hu1, Hn1 in Ht2.
  split; [exact Ht1|]. split; [exact Ht2|].
  rewrite Ht1, Ht2. intros [= H]. apply Hinj in H. lia.
Qed.

Lemma pathCredentialsRead_fresh_token_id_witness :
  let w := world_with_ids (world_with_r1 upstream_ok) in
  let r1 := pathCredentialsRead w "r1" in
  let r2 := pathCredentialsRead (snd r1) "r1" in
  exists resp1 resp2,
    fst r1 = Ret (Some resp1) /\ fst r2 = Ret (Some resp2)
    /\ resp_Data resp1 !! "token_id" = Some (VString "id")
    /\ resp_Data resp2 !! "token_id" = Some (VString "1id")
    /\ resp_Data resp1 !! "token_id" <> resp_Data resp2 !! "token_id".
Proof.
  intros w r1 r2.
  destruct (fst r1) as [[resp1|]|e|m] eqn:E1; try (vm_compute in E1; discriminate).
  destruct (fst r2) as [[resp2|]|e|m] eqn:E2; try (vm_compute in E2; discriminate).
  exists resp1, resp2. split; [reflexivity|]. split; [reflexivity|].
  apply (pathCredentialsRead_fresh_token_id w (snd r1) (snd r2) "r1" "r1" resp1 resp2).
  - exact uuid_unary_inj.
  - rewrite <- E1. apply surjective_pairing.
  - rewrite <- E2. apply surjective_pairing.
Defined.

(** ** Revocation and renewal *)

(** X22: the client is fetched before the lease is looked at: when no
    client can be obtained, revocation fails with the error of [getClient]
    under the prefix "error getting client", for every lease, and the world
    is the one [getClient] left, so no sign-out was made. *)
Theorem tokenRevoke_client_failure (w w1 : World) (secret : Secret) (e : string) :
  getClient w = (Fail e, w1) ->
  tokenRevoke w secret = (Fail ("error getting client: " +:+ e), w1)
  /\ filter is_SignOut (calls w1) = filter is_SignOut (calls w).
Proof.
  intros Hget. split.
  - unfold tokenRevoke. rewrite Hget. reflexivity.
  - rewrite <- (getClient_no_SignOut w), Hget. reflexivity.
Qed.

(** Revoking on a mount without configuration, with a well-formed lease and
    with one whose token is not a string. *)
Lemma tokenRevoke_client_failure_witness :
  let w := fresh_world upstream_ok in
  tokenRevoke w (lease_of {[ "token" := VString "jwt-of-alice" ]})
    = (Fail "error getting client: client username was not defined", w)
  /\ tokenRevoke w (lease_of {[ "token" := VInt 42 ]})
     = (Fail "error getting client: client username was not defined", w).
Proof.
  intros w.
  assert (Hget : getClient w = (Fail "client username was not defined", w))
    by reflexivity.
  split.
  - exact (proj1 (tokenRevoke_client_failure w w _ _ Hget)).
  - exact (proj1 (tokenRevoke_client_failure w w _ _ Hget)).
Defined.

(** X23: revocation writes the lease's token into the cached client object
    itself: afterwards the cache still points to the same object, that
    object holds the revoked token with its url and credentials unchanged,
    no other object is touched, and the next [getClient] hands out that
    object. *)
Theorem tokenRevoke_overwrites_cached_token
    (w w1 : World) (secret : Secret) (c : nat) (cl : hashicupsClient) (token : string) :
  getClient w = (Ret c, w1) ->
  heap w1 !! c = Some cl ->
  InternalData secret !! "token" = Some (VString token) ->
  exists w2,
    tokenRevoke w secret = (Ret None, w2)
    /\ client w2 = Some c
    /\ heap w2 !! c
       = Some (mkClient (HostURL cl) (auth_Username cl) (auth_Password cl) token)
    /\ (forall i, i <> c -> heap w2 !! i = heap w1 !! i)
    /\ getClient w2 = (Ret c, w2).
Proof.
  intros Hget Hcl Htok.
  pose proof (getClient_caches w w1 c Hget) as Hc.
  assert (Hlt : (c < length (heap w1))%nat) by (eapply lookup_lt_Some; eauto).
  unfold tokenRevoke. rewrite Hget, Htok.
  unfold deleteToken. rewrite Hcl. cbv zeta.
  assert (Hgoal : forall w2,
    w2 = log_call
           (set_heap w1
              (<[c := mkClient (HostURL cl) (auth_Username cl) (auth_Password cl) token]>
                 (heap w1)))
           (CallSignOut token) ->
    client w2 = Some c
    /\ heap w2 !! c
       = Some (mkClient (HostURL cl) (auth_Username cl) (auth_Password cl) token)
    /\ (forall i, i <> c -> heap w2 !! i = heap w1 !! i)
    /\ getClient w2 = (Ret c, w2)).
  { intros w2 ->. simpl. split; [exact Hc|].
    split; [apply list_lookup_insert_eq; exact Hlt|]. split.
    - intros i Hi. apply list_lookup_insert_ne. congruence.
    - unfold getClient. simpl. rewrite Hc. reflexivity. }
  destruct (SignOut_answer _ _); eexists; (split; [reflexivity|]);
    apply Hgoal; reflexivity.
Qed.

Lemma tokenRevoke_overwrites_cached_token_witness :
  let w := configured_world upstream_ok in
  exists w2,
    tokenRevoke w (lease_of {[ "token" := VString "jwt-of-alice" ]}) = (Ret None, w2)
    /\ client w2 = Some 0%nat
    /\ heap w2 !! 0%nat
       = Some (mkClient "https://api.example" "alice" "pw" "jwt-of-alice")
    /\ (forall i, i <> 0%nat -> heap w2 !! i = heap (snd (getClient w)) !! i)
    /\ getClient w2 = (Ret 0%nat, w2).
Proof.
  intros w.
  apply (tokenRevoke_overwrites_cached_token w (snd (getClient w)) _ 0%nat
           (mkClient "https://api.example" "alice" "pw" "jwt-of-the-plugin")
           "jwt-of-alice");
    vm_compute; reflexivity.
Defined.

(** X24: what revocation never does, whatever its outcome: it writes
    nothing to storage, draws no token id, and the only upstream calls it
    adds are at most one call of the library constructor and at most one
    sign-out. *)
Theorem tokenRevoke_footprint (w : World) (secret : Secret) :
  storage (snd (tokenRevoke w secret)) = storage w
  /\ uuid_count (snd (tokenRevoke w secret)) = uuid_count w
  /\ (calls (snd (tokenRevoke w secret)) = calls (snd (getClient w))
      \/ exists token,
           calls (snd (tokenRevoke w secret))
           = CallSignOut token :: calls (snd (getClient w))).
Proof.
  destruct (getClient_keeps w) as [Hs [_ [Hn _]]].
  unfold tokenRevoke.
  destruct (getClient w) as [[c|e|m] w1]; simpl in *; auto.
  assert (Hdel : forall token,
    storage (snd (deleteToken w1 c token)) = storage w1
    /\ uuid_count (snd (deleteToken w1 c token)) = uuid_count w1
    /\ (calls (snd (deleteToken w1 c token)) = calls w1
        \/ calls (snd (deleteToken w1 c token)) = CallSignOut token :: calls w1)).
  { intros token. unfold deleteToken.
    destruct (heap w1 !! c); [|auto]. cbv zeta.
    destruct (SignOut_answer _ _); simpl; auto. }
  destruct (InternalData secret !! "token") as [[token| |]|]; simpl; auto.
  - destruct (Hdel token) as [H1 [H2 H3]].
    destruct (deleteToken w1 c token) as [[[]|e|m] w2]; simpl in *;
      (split; [congruence|]); (split; [congruence|]);
      (destruct H3 as [->| ->]; eauto).
  - destruct (Hdel "") as [H1 [H2 H3]].
    destruct (deleteToken w1 c "") as [[[]|e|m] w2]; simpl in *;
      (split; [congruence|]); (split; [congruence|]);
      (destruct H3 as [->| ->]; eauto).
Qed.

Lemma apply_role_ttls_twice (role : myRoleEntry) (s : Secret) :
  apply_role_ttls role (apply_role_ttls role s) = apply_role_ttls role s.
Proof.
  unfold apply_role_ttls. destruct s. repeat case_bool_decide; reflexivity.
Qed.

(** What a renewal that succeeds has done. *)
Lemma tokenRenew_success (w w' : World) (secret secret' : Secret) (resp : Response) :
  tokenRenew w secret = (Ret (Some resp), w', secret') ->
  exists role roleEntry,
    InternalData secret !! "role" = Some (VString role)
    /\ getRole (storage w) role = Ret (Some roleEntry)
    /\ secret' = apply_role_ttls roleEntry secret
    /\ resp = mkResponse (Some secret') ∅
    /\ w' = w.
Proof.
  unfold tokenRenew.
  destruct (InternalData secret !! "role") as [[role| |]|]; try discriminate.
  destruct (getRole (storage w) role) as [[roleEntry|]|e|m] eqn:Hget; try discriminate.
  intros [= <- <- <-]. exists role, roleEntry. auto.
Qed.

(** X25: renewal is idempotent: renewing the lease a successful renewal
    returned, with the role store unchanged, succeeds and returns that same
    lease. *)
Theorem tokenRenew_again (w w' : World) (secret secret' : Secret) (resp : Response) :
  tokenRenew w secret = (Ret (Some resp), w', secret') ->
  tokenRenew w' secret' = (Ret (Some resp), w', secret').
Proof.
  intros H.
  destruct (tokenRenew_success w w' secret secret' resp H)
    as [role [roleEntry [Hrole [Hget [-> [-> ->]]]]]].
  unfold tokenRenew.
  rewrite apply_role_ttls_InternalData, Hrole, Hget, apply_role_ttls_twice.
  reflexivity.
Qed.

Lemma tokenRenew_again_witness :
  let w := world_with_r1 upstream_ok in
  let lease := mkSecret (seconds 10) (seconds 20) true {[ "role" := VString "r1" ]} in
  let renewed := mkSecret (seconds 60) (seconds 120) true {[ "role" := VString "r1" ]} in
  tokenRenew w renewed = (Ret (Some (mkResponse (Some renewed) ∅)), w, renewed).
Proof.
  intros w lease renewed.
  apply (tokenRenew_again w w lease renewed).
  vm_compute. reflexivity.
Defined.

(** What an issuance that succeeds has put into the lease. *)
Lemma pathCredentialsRead_secret (w w' : World) (roleName : string) (resp : Response) :
  pathCredentialsRead w roleName = (Ret (Some resp), w') ->
  exists role s0,
    getRole (storage w) roleName = Ret (Some role)
    /\ resp_Secret resp = Some (apply_role_ttls role s0)
    /\ InternalData s0 !! "role" = Some (VString (Username role))
    /\ storage w' = storage w.
Proof.
  destruct (getClient_keeps w) as [Hs _].
  unfold pathCredentialsRead.
  destruct (getRole (storage w) roleName) as [[role|]|e|m]; try discriminate.
  unfold createUserCreds, myBackend_createToken.
  destruct (getClient w) as [[c|e|m] w1]; try discriminate.
  simpl in Hs. unfold createToken.
  destruct (heap w1 !! c) as [cl|]; try discriminate.
  cbv zeta. destruct (SignIn_answer _ _) as [ar|e|m]; try discriminate.
  simpl. intros [= <- <-]. simpl.
  eexists. eexists. split; [reflexivity|]. split; [reflexivity|]. simpl.
  split; [|exact Hs].
  rewrite lookup_insert_ne by done. rewrite lookup_insert_ne by done.
  apply lookup_insert_eq.
Qed.

(** X26: issuance and renewal fit together when the role is stored under
    its own username: the lease just issued for such a role renews
    successfully, and the renewal returns the lease unchanged. *)
Theorem pathCredentialsRead_then_tokenRenew
    (w w' : World) (roleName : string) (role : myRoleEntry) (resp : Response) :
  getRole (storage w) roleName = Ret (Some role) ->
  Username role = roleName ->
  pathCredentialsRead w roleName = (Ret (Some resp), w') ->
  exists secret,
    resp_Secret resp = Some secret
    /\ tokenRenew w' secret = (Ret (Some (mkResponse (Some secret) ∅)), w', secret).
Proof.
  intros Hget Hname Hissue.
  destruct (pathCredentialsRead_secret w w' roleName resp Hissue)
    as [role' [s0 [Hget' [Hsec [Hrole Hs]]]]].
  rewrite Hget in Hget'. injection Hget' as <-.
  exists (apply_role_ttls role s0). split; [exact Hsec|].
  unfold tokenRenew.
  rewrite apply_role_ttls_InternalData, Hrole, Hname, Hs, Hget, apply_role_ttls_twice.
  reflexivity.
Qed.

(** A role stored under the name alice with username alice. *)
Lemma pathCredentialsRead_then_tokenRenew_witness :
  let w0 := configured_world upstream_ok in
  let d := mkRoleFieldData (Some "alice") (Some "alice") (Some 60) (Some 120) in
  let w := set_storage w0 (snd (pathRolesWrite CreateOperation d (storage w0))) in
  exists resp secret,
    fst (pathCredentialsRead w "alice") = Ret (Some resp)
    /\ resp_Secret resp = Some secret
    /\ tokenRenew (snd (pathCredentialsRead w "alice")) secret
       = (Ret (Some (mkResponse (Some secret) ∅)),
          snd (pathCredentialsRead w "alice"), secret).
Proof.
  intros w0 d w.
  destruct (fst (pathCredentialsRead w "alice")) as [[resp|]|e|m] eqn:E;
    try (vm_compute in E; discriminate).
  destruct (pathCredentialsRead_then_tokenRenew w (snd (pathCredentialsRead w "alice"))
              "alice" (mkRole "alice" 0 "" "" (seconds 60) (seconds 120)) resp)
    as [secret [Hsec Hrenew]].
  - vm_compute. reflexivity.
  - reflexivity.
  - rewrite <- E. apply surjective_pairing.
  - exists resp, secret. split; [reflexivity|]. split; [exact Hsec | exact Hrenew].
Defined.

(** ** Configuration fields are stored as supplied *)

Lemma getClient_empty_field (w : World) (config : myConfig) :
  client w = None ->
  getConfig (storage w) = Ret (Some config) ->
  cfg_Username config = "" \/ cfg_Password config = "" \/ cfg_URL config = "" ->
  exists e, getClient w = (Fail e, w).
Proof.
  intros Hc Hg Hempty. unfold getClient. rewrite Hc, Hg. simpl. unfold newClient.
  newClient_fields;
    try (eexists; simpl; rewrite <- Hc, set_client_same; reflexivity).
  exfalso. destruct Hempty as [?|[?|?]]; contradiction.
Qed.

(** X27: a configuration write that supplies all three fields is stored
    whenever storage works (as a create, or as an update of an existing
    record), with no check on the values: empty strings are stored too, and
    then it is [getClient] that fails, leaving nothing cached. *)
Theorem pathConfigWrite_stores_fields_unchecked
    (op : Operation) (data : ConfigFieldData) (w : World) (found : option myConfig)
    (username url password : string) :
  getConfig (storage w) = Ret found ->
  put_fault (storage w) = None ->
  (found = None -> op = CreateOperation) ->
  cfd_username data = Some username ->
  cfd_url data = Some url ->
  cfd_password data = Some password ->
  exists w',
    pathConfigWrite op data w = (Ret None, w')
    /\ getConfig (storage w') = Ret (Some (mkConfig username password url))
    /\ (username = "" \/ password = "" \/ url = "" ->
        exists e, getClient w' = (Fail e, w')).
Proof.
  intros Hg Hp Hop Hu Hurl Hpw.
  assert (Hw : pathConfigWrite op data w
    = (Ret None, reset (set_storage w
         (put_entry (storage w) configStoragePath
            (encode_config (mkConfig username password url)))))).
  { unfold pathConfigWrite. rewrite Hg.
    assert (Hf : forall co c,
      configFields co data c = Ret (mkConfig username password url)).
    { intros co c. unfold configFields. rewrite Hu, Hurl, Hpw. reflexivity. }
    destruct found as [c|].
    - destruct (bool_decide (op = CreateOperation)); rewrite Hf;
        unfold storage_Put, put_entry; rewrite Hp; reflexivity.
    - rewrite (bool_decide_eq_true_2 _ (Hop eq_refl)). rewrite Hf.
      unfold storage_Put, put_entry. rewrite Hp. reflexivity. }
  eexists. split; [exact Hw|].
  assert (Hg' : getConfig (put_entry (storage w) configStoragePath
                  (encode_config (mkConfig username password url)))
                = Ret (Some (mkConfig username password url))).
  { apply getConfig_put_config. exact (getConfig_get_fault _ _ Hg). }
  split; [exact Hg'|].
  intros Hempty. eapply getClient_empty_field; [reflexivity | exact Hg' | exact Hempty].
Qed.

(** A create with an empty password on a fresh mount. *)
Lemma pathConfigWrite_stores_fields_unchecked_witness :
  let w := fresh_world upstream_ok in
  let data := mkConfigFieldData (Some "alice") (Some "https://api.example") (Some "") in
  exists w',
    pathConfigWrite CreateOperation data w = (Ret None, w')
    /\ getConfig (storage w') = Ret (Some (mkConfig "alice" "" "https://api.example"))
    /\ exists e, getClient w' = (Fail e, w').
Proof.
  intros w data.
  destruct (pathConfigWrite_stores_fields_unchecked CreateOperation data w None
              "alice" "https://api.example" "")
    as [w' [Hw [Hg Hfail]]]; try reflexivity.
  exists w'. split; [exact Hw|]. split; [exact Hg|].
  apply Hfail. right. left. reflexivity.
Defined.
